(** * iter-progress: a shallow embedding of [src/lib.rs]

    The crate wraps an iterator into a [ProgressRecorderIter] that pairs
    each element with a [ProgressRecord] (number of items seen, time since
    construction, the inner iterator's [size_hint]).

    Modelling choices, following the source and the Rust semantics it
    relies on:
    - [usize] is a 64-bit unsigned integer ([N] below [2^64]); arithmetic is
      overflow-checked, as in the crate's debug/test profile, so an overflow
      is a panic;
    - a panic is the [Panic] branch of the result type [rust];
    - [f32] is IEEE binary32, i.e. [spec_float] with precision 24 and
      [emax] 128; integer-to-float casts round to nearest, ties to even;
    - [time::Tm] (from [now_utc]) is represented by its [Timespec]
      ([sec], [nsec] with [0 <= nsec < 10^9]) and [time::Duration] by its
      fields [secs] and [nanos]; the subtraction of two [Tm] is the
      [Timespec] subtraction of the time crate;
    - the wrapped iterator is any state [S] with a [next] step
      [S -> option A * S] and a [size_hint]; the wall clock is an input:
      each pull receives the reading [now_utc()] would return. *)

From Stdlib Require Import ZArith NArith List String Ascii Bool Lia.
From Stdlib Require Import Floats.SpecFloat.
Import ListNotations.

(** ** Rust results: a value or a panic *)

Inductive rust (T : Type) : Type :=
| Ok (v : T)
| Panic (msg : string).
Arguments Ok {T} v.
Arguments Panic {T} msg.

Definition rbind {A B : Type} (m : rust A) (k : A -> rust B) : rust B :=
  match m with
  | Ok v => k v
  | Panic s => Panic s
  end.

Notation "x <- m ;; k" := (rbind m (fun x => k))
  (at level 61, m at next level, right associativity).

Definition is_panic {T : Type} (r : rust T) : bool :=
  match r with Panic _ => true | Ok _ => false end.

(** ** [usize] and [i64] arithmetic *)

Definition usize_max : N := (2 ^ 64 - 1)%N.
Definition i64_min : Z := (- 2 ^ 63)%Z.
Definition i64_max : Z := (2 ^ 63 - 1)%Z.

Definition usize_add (a b : N) : rust N :=
  if (a + b <=? usize_max)%N then Ok (a + b)%N
  else Panic "attempt to add with overflow".

Definition usize_sub (a b : N) : rust N :=
  if (b <=? a)%N then Ok (a - b)%N
  else Panic "attempt to subtract with overflow".

Definition usize_rem (a b : N) : rust N :=
  if (b =? 0)%N then Panic "attempt to calculate the remainder with a divisor of zero"
  else Ok (a mod b)%N.

Definition i64_sub (a b : Z) : rust Z :=
  if (i64_min <=? a - b)%Z && (a - b <=? i64_max)%Z then Ok (a - b)%Z
  else Panic "attempt to subtract with overflow".

(** ** [f32] *)

Definition f32 := spec_float.
Definition f32_prec : Z := 24.
Definition f32_emax : Z := 128.

(** [x as f32] for an integer [x] (usize or i64). *)
Definition f32_of_Z (z : Z) : f32 := binary_normalize f32_prec f32_emax z 0 false.
Definition f32_div (x y : f32) : f32 := SFdiv f32_prec f32_emax x y.
Definition f32_mul (x y : f32) : f32 := SFmul f32_prec f32_emax x y.
Definition f32_infinity : f32 := S754_infinity false.
(** The literal [100.0]. *)
Definition f32_100 : f32 := f32_of_Z 100.

(** Round to nearest, ties to even, of the rational [N / D] ([D > 0]). *)
Definition rne_val (N D : Z) : Z :=
  let q := (N / D)%Z in
  match Z.compare (2 * (N mod D)) D with
  | Lt => q
  | Eq => if Z.even q then q else (q + 1)%Z
  | Gt => (q + 1)%Z
  end.

(** A rounding state [(m, round bit, sticky bit)] of [SpecFloat] describes
    the rational [N / D]: [m] is its integer part, the round bit says that
    the fractional part is at least one half and the sticky bit that it is
    neither zero nor exactly one half. *)
Definition rec_approx (mrs : shr_record) (N D : Z) : Prop :=
  (0 < D)%Z /\ (0 <= N)%Z /\ shr_m mrs = (N / D)%Z /\
  shr_r mrs = (D <=? 2 * (N mod D))%Z /\
  shr_s mrs = negb ((N mod D =? 0)%Z || (2 * (N mod D) =? D)%Z).

(** [x] is a positive finite [f32] whose value [m * 2^e] is at most [b]. *)
Definition f32_pos_le (x : f32) (b : Z) : Prop :=
  match x with
  | S754_finite false m e =>
      if (0 <=? e)%Z then (Zpos m * 2 ^ e <= b)%Z else (Zpos m <= b * 2 ^ (- e))%Z
  | _ => False
  end.

(** ** Decimal formatting ([{}] of [usize] and [i64]) *)

Definition digit_char (d : N) : ascii := ascii_of_N (48 + d).

Fixpoint dec_aux (fuel : nat) (n : N) (acc : string) : string :=
  match fuel with
  | O => acc
  | S f =>
      let acc' := String (digit_char (n mod 10)) acc in
      if (n <? 10)%N then acc' else dec_aux f (n / 10)%N acc'
  end.

Definition fmt_usize (n : N) : string := dec_aux (S (N.size_nat n)) n EmptyString.

Definition fmt_i64 (z : Z) : string :=
  if (z <? 0)%Z then String "-" (fmt_usize (Z.to_N (- z)))
  else fmt_usize (Z.to_N z).

(** ** The time crate: [Timespec], [Duration], [Tm - Tm] *)

Definition NANOS_PER_SEC : Z := 1000000000.

Record Timespec := { sec : Z; nsec : Z }.

Record Duration := { secs : Z; nanos : Z }.

(** [i64::MAX / MILLIS_PER_SEC]: the bound checked by [Duration::seconds]. *)
Definition duration_max_secs : Z := 9223372036854775.

Definition Duration_seconds (s : Z) : rust Duration :=
  if (- duration_max_secs <=? s)%Z && (s <=? duration_max_secs)%Z
  then Ok {| secs := s; nanos := 0 |}
  else Panic "Duration::seconds out of bounds".

(** [Duration::nanoseconds]: [div_floor] and [mod_floor] by [10^9]. *)
Definition Duration_nanoseconds (n : Z) : Duration :=
  {| secs := n / NANOS_PER_SEC; nanos := n mod NANOS_PER_SEC |}.

Definition Duration_add (d1 d2 : Duration) : Duration :=
  let s := (secs d1 + secs d2)%Z in
  let n := (nanos d1 + nanos d2)%Z in
  if (NANOS_PER_SEC <=? n)%Z then {| secs := s + 1; nanos := n - NANOS_PER_SEC |}
  else {| secs := s; nanos := n |}.

(** [Duration::num_seconds]: whole seconds, rounded towards zero. *)
Definition num_seconds (d : Duration) : Z :=
  if (secs d <? 0)%Z && (0 <? nanos d)%Z then (secs d + 1)%Z else secs d.

(** [impl Sub for Timespec] (and so [Tm - Tm]):
    [Duration::seconds(sec) + Duration::nanoseconds(nsec as i64)]. *)
Definition Timespec_sub (t1 t0 : Timespec) : rust Duration :=
  s <- i64_sub (sec t1) (sec t0) ;;
  d <- Duration_seconds s ;;
  Ok (Duration_add d (Duration_nanoseconds (nsec t1 - nsec t0))).

(** Derived [PartialOrd] of [Duration]: lexicographic on [(secs, nanos)]. *)
Definition Duration_le (d1 d2 : Duration) : bool :=
  (secs d1 <? secs d2)%Z || ((secs d1 =? secs d2)%Z && (nanos d1 <=? nanos d2)%Z).

Definition valid_timespec (t : Timespec) : Prop :=
  (i64_min <= sec t <= i64_max)%Z /\ (0 <= nsec t < NANOS_PER_SEC)%Z.

(** Nanoseconds since the epoch of a reading, and length of a duration. *)
Definition ts_ns (t : Timespec) : Z := (sec t * NANOS_PER_SEC + nsec t)%Z.
Definition dur_ns (d : Duration) : Z := (secs d * NANOS_PER_SEC + nanos d)%Z.

(** ** [ProgressRecord] *)

Record ProgressRecord := {
  num : N;
  iterating_for : Duration;
  size_hint : N * option N
}.

Definition num_done (r : ProgressRecord) : N := num r.

Definition duration_since_start (r : ProgressRecord) : Duration := iterating_for r.

Definition message (r : ProgressRecord) : string :=
  ("Have seen " ++ fmt_usize (num_done r) ++ " items and been iterating for "
   ++ fmt_i64 (num_seconds (iterating_for r)))%string.

Definition rate (r : ProgressRecord) : f32 :=
  f32_div (f32_of_Z (Z.of_N (num_done r)))
          (f32_of_Z (num_seconds (duration_since_start r))).

Definition is_size_known (r : ProgressRecord) : bool :=
  match snd (size_hint r) with
  | None => false
  | Some x => (fst (size_hint r) =? x)%N
  end.

Definition fraction (r : ProgressRecord) : rust (option f32) :=
  if is_size_known r then
    let remaining := fst (size_hint r) in
    let done := num_done r in
    total <- usize_add remaining done ;;
    Ok (Some (f32_div (f32_of_Z (Z.of_N done)) (f32_of_Z (Z.of_N total))))
  else Ok None.

Definition percent (r : ProgressRecord) : rust (option f32) :=
  o <- fraction r ;;
  match o with
  | None => Ok None
  | Some f => Ok (Some (f32_mul f f32_100))
  end.

Definition should_print_every_items (r : ProgressRecord) (n : N) : rust bool :=
  d <- usize_sub (num_done r) 1 ;;
  m <- usize_rem d n ;;
  Ok (m =? 0)%N.

(** ** [ProgressRecorderIter] *)

Section Recorder.

Context {S A : Type}.
(** [Iterator::next] of the wrapped iterator, as a state step. *)
Variable src_next : S -> option A * S.
(** [Iterator::size_hint] of the wrapped iterator. *)
Variable src_size_hint : S -> N * option N.

Record ProgressRecorderIter := {
  iter : S;
  count : N;
  started_iterating : Timespec
}.

(** [ProgressRecorderIter::new]; [now] is the reading of [now_utc()]. *)
Definition new (it : S) (now : Timespec) : ProgressRecorderIter :=
  {| iter := it; count := 0; started_iterating := now |}.

(** [generate_record]: [self.count += 1], then the record from
    [now_utc() - self.started_iterating] and [self.iter.size_hint()]. *)
Definition generate_record (self : ProgressRecorderIter) (now : Timespec)
  : rust (ProgressRecord * ProgressRecorderIter) :=
  c <- usize_add (count self) 1 ;;
  let self' := {| iter := iter self; count := c;
                  started_iterating := started_iterating self |} in
  d <- Timespec_sub now (started_iterating self') ;;
  Ok ({| num := count self'; iterating_for := d;
         size_hint := src_size_hint (iter self') |}, self').

(** [Iterator::next] of the adapter:
    [self.iter.next().map(|a| (self.generate_record(), a))]. *)
Definition next (self : ProgressRecorderIter) (now : Timespec)
  : rust (option (ProgressRecord * A) * ProgressRecorderIter) :=
  let (o, s') := src_next (iter self) in
  let self1 := {| iter := s'; count := count self;
                  started_iterating := started_iterating self |} in
  match o with
  | None => Ok (None, self1)
  | Some a =>
      p <- generate_record self1 now ;;
      let (rec, self2) := p in
      Ok (Some (rec, a), self2)
  end.

(** [Iterator::size_hint] of the adapter. *)
Definition recorder_size_hint (self : ProgressRecorderIter) : N * option N :=
  src_size_hint (iter self).

(** Successive pulls of the adapter; [clock] holds the clock reading of
    each pull, in order. *)
Fixpoint run (self : ProgressRecorderIter) (clock : list Timespec)
  : rust (list (option (ProgressRecord * A)) * ProgressRecorderIter) :=
  match clock with
  | [] => Ok ([], self)
  | now :: rest =>
      p <- next self now ;;
      let (o, self1) := p in
      q <- run self1 rest ;;
      let (os, self2) := q in
      Ok (o :: os, self2)
  end.

(** Successive pulls of the unwrapped iterator. *)
Fixpoint src_run (s : S) (k : nat) : list (option A) * S :=
  match k with
  | O => ([], s)
  | Datatypes.S k' =>
      let (o, s1) := src_next s in
      let (os, s2) := src_run s1 k' in
      (o :: os, s2)
  end.

End Recorder.

(** ** Concrete iterators *)

(** [vec.iter()]: a slice iterator over the remaining elements. *)
Definition slice_next {A : Type} (l : list A) : option A * list A :=
  match l with
  | [] => (None, [])
  | x :: rest => (Some x, rest)
  end.

Definition slice_size_hint {A : Type} (l : list A) : N * option N :=
  (N.of_nat (List.length l), Some (N.of_nat (List.length l))).

(** [std::iter::repeat(x)]: an infinite iterator. *)
Definition repeat_next {A : Type} (x : A) (s : unit) : option A * unit := (Some x, tt).
Definition repeat_size_hint (s : unit) : N * option N := (usize_max, None).

(** [(lo1..hi1).chain(lo2..hi2)] over [usize]: [Chain::size_hint] adds the
    lower bounds with [saturating_add] and the upper bounds with
    [checked_add]. *)
Definition chain_next (s : N * N * N * N) : option N * (N * N * N * N) :=
  let '(lo1, hi1, lo2, hi2) := s in
  if (lo1 <? hi1)%N then (Some lo1, ((lo1 + 1)%N, hi1, lo2, hi2))
  else if (lo2 <? hi2)%N then (Some lo2, (lo1, hi1, (lo2 + 1)%N, hi2))
  else (None, s).

Definition chain_size_hint (s : N * N * N * N) : N * option N :=
  let '(lo1, hi1, lo2, hi2) := s in
  let n := ((hi1 - lo1) + (hi2 - lo2))%N in
  (N.min n usize_max, if (n <=? usize_max)%N then Some n else None).

(** An iterator that is not fused: each [None] is followed by an element
    (as [std::sync::mpsc::TryIter] does when a message arrives later). *)
Definition flaky_next (s : bool) : option unit * bool :=
  if s then (Some tt, false) else (None, true).
Definition flaky_size_hint (s : bool) : N * option N := (0%N, None).

(** Clock readings used in the scenarios below: whole seconds since the epoch. *)
Definition at_sec (s : Z) : Timespec := {| sec := s; nsec := 0 |}.
Definition t_epoch : Timespec := at_sec 0.

(** An iterator is fused when a pull that returns [None] leads to a state
    whose next pull returns [None] again. *)
Definition fused {S A : Type} (nx : S -> option A * S) : Prop :=
  forall s, fst (nx s) = None -> fst (nx (snd (nx s))) = None.

(** Records yielded by a sequence of pulls, in order. *)
Definition records {A : Type} (outs : list (option (ProgressRecord * A))) : list ProgressRecord :=
  flat_map (fun o => match o with Some (r, _) => [r] | None => [] end) outs.

(** ** The remaining methods of the crate *)

(** [ProgressableIter::progress]: [ProgressRecorderIter::new(self)]. *)
Definition progress {S : Type} (it : S) (now : Timespec) := new it now.

Definition newline : string := String (ascii_of_nat 10) EmptyString.

(** [print_message]: [println!("{}", self.message())]; the lines written
    to standard output. *)
Definition print_message (r : ProgressRecord) : list string :=
  [(message r ++ newline)%string].

(** [print_every]: [print!("{}", msg)] if [should_print_every_items(n)];
    the text written to standard output. *)
Definition print_every (r : ProgressRecord) (n : N) (msg : string) : rust (list string) :=
  b <- should_print_every_items r n ;;
  Ok (if b then [msg] else []).

(** [Iterator::count] of the wrapped iterator, the default
    [fold(0, |count, _| count + 1)] with the addition overflow-checked.
    [fuel] bounds the number of pulls: [None] means the loop has not
    finished after [fuel] pulls. *)
Fixpoint iter_count {S A : Type} (nx : S -> option A * S) (fuel : nat) (s : S) (acc : N)
  : option (rust N) :=
  match fuel with
  | O => None
  | Datatypes.S f =>
      match nx s with
      | (None, _) => Some (Ok acc)
      | (Some _, s') =>
          match usize_add acc 1 with
          | Ok acc' => iter_count nx f s' acc'
          | Panic m => Some (Panic m)
          end
      end
  end.

(** [Iterator::count] of the adapter: [self.iter.count()]. *)
Definition recorder_count {S A : Type} (nx : S -> option A * S) (fuel : nat)
  (self : @ProgressRecorderIter S) : option (rust N) :=
  iter_count nx fuel (iter self) 0.

(** A caller that runs [state.print_every(n, msg)] on each record it gets,
    in order; the text written. *)
Fixpoint print_every_loop (rs : list ProgressRecord) (n : N) (msg : string)
  : rust (list string) :=
  match rs with
  | [] => Ok []
  | r :: rest =>
      o <- print_every r n msg ;;
      os <- print_every_loop rest n msg ;;
      Ok (o ++ os)
  end.

(** The [f32] value [1.0]. *)
Definition f32_one : f32 := f32_of_Z 1.

(** * Properties *)

Section RecorderFacts.

Context {S A : Type}.
Variable nx : S -> option A * S.
Variable sh : S -> N * option N.

Lemma usize_add_ok a b c : usize_add a b = Ok c -> c = (a + b)%N /\ (a + b <= usize_max)%N.
Proof.
  unfold usize_add. destruct (N.leb_spec (a + b) usize_max) as [Hle|Hgt]; intro H; inversion H; auto.
Qed.

Lemma next_none_inv (st st' : ProgressRecorderIter) now :
  next nx sh st now = Ok (None, st') ->
  nx (iter st) = (None, iter st') /\ count st' = count st /\
  started_iterating st' = started_iterating st.
Proof.
  unfold next. destruct (nx (iter st)) as [[a|] s'] eqn:E.
  - unfold generate_record. simpl.
    destruct (usize_add (count st) 1); simpl; [|discriminate].
    destruct (Timespec_sub now (started_iterating st)); simpl; discriminate.
  - intro H. inversion H; subst. simpl. auto.
Qed.

Lemma next_some_inv (st st' : ProgressRecorderIter) now r a :
  next nx sh st now = Ok (Some (r, a), st') ->
  nx (iter st) = (Some a, iter st') /\ count st' = (count st + 1)%N /\
  (count st + 1 <= usize_max)%N /\ num r = count st' /\
  started_iterating st' = started_iterating st /\
  Timespec_sub now (started_iterating st) = Ok (iterating_for r) /\
  size_hint r = sh (iter st').
Proof.
  unfold next. destruct (nx (iter st)) as [[a'|] s'] eqn:E.
  - unfold generate_record. simpl.
    destruct (usize_add (count st) 1) as [c|] eqn:Ec; simpl; [|discriminate].
    destruct (Timespec_sub now (started_iterating st)) as [d|] eqn:Ed; simpl; [|discriminate].
    intro H. inversion H; subst. simpl.
    apply usize_add_ok in Ec as [-> Hle]. repeat split; auto.
  - discriminate.
Qed.

Lemma next_ok_cases (st st' : ProgressRecorderIter) now o :
  next nx sh st now = Ok (o, st') ->
  match o with
  | None => nx (iter st) = (None, iter st') /\ count st' = count st
  | Some (r, a) => nx (iter st) = (Some a, iter st') /\ count st' = (count st + 1)%N /\
                   num r = count st'
  end /\ started_iterating st' = started_iterating st.
Proof.
  destruct o as [[r a]|]; intro H.
  - apply next_some_inv in H. tauto.
  - apply next_none_inv in H. tauto.
Qed.

Lemma run_cons (st : ProgressRecorderIter) now rest res :
  run nx sh st (now :: rest) = Ok res ->
  exists o st1 os, next nx sh st now = Ok (o, st1) /\
    run nx sh st1 rest = Ok (os, snd res) /\ fst res = o :: os.
Proof.
  simpl. destruct (next nx sh st now) as [[o st1]|] eqn:E; simpl; [|discriminate].
  destruct (run nx sh st1 rest) as [[os st2]|] eqn:E2; simpl; [|discriminate].
  intro H. inversion H; subst. exists o, st1, os. auto.
Qed.

Lemma run_counts (clock : list Timespec) :
  forall (st st' : ProgressRecorderIter) outs,
  run nx sh st clock = Ok (outs, st') ->
  count st' = (count st + N.of_nat (List.length (records outs)))%N /\
  started_iterating st' = started_iterating st /\
  (forall n r, nth_error (records outs) n = Some r -> num r = (count st + N.of_nat (Datatypes.S n))%N).
Proof.
  induction clock as [|now rest IH]; intros st st' outs H.
  - simpl in H. inversion H; subst. simpl. split; [lia|split; [reflexivity|]].
    intros [|n] r Hn; discriminate.
  - apply run_cons in H as (o & st1 & os & Hnext & Hrun & Houts). simpl in Houts, Hrun.
    subst outs. apply IH in Hrun as (Hc & Hs & Hn).
    apply next_ok_cases in Hnext as [Ho Hs1].
    destruct o as [[r a]|]; simpl.
    + destruct Ho as (_ & Hc1 & Hr). split; [|split].
      * rewrite Hc, Hc1. simpl List.length. lia.
      * congruence.
      * intros [|n] r' Hr'; simpl in Hr'.
        -- inversion Hr'; subst. lia.
        -- apply Hn in Hr'. lia.
    + destruct Ho as (_ & Hc1). split; [|split].
      * rewrite Hc, Hc1. reflexivity.
      * congruence.
      * intros n r' Hr'. apply Hn in Hr'. lia.
Qed.

Lemma run_elements (clock : list Timespec) :
  forall (st st' : ProgressRecorderIter) outs,
  run nx sh st clock = Ok (outs, st') ->
  map (option_map snd) outs = fst (src_run nx (iter st) (List.length clock)) /\
  iter st' = snd (src_run nx (iter st) (List.length clock)).
Proof.
  induction clock as [|now rest IH]; intros st st' outs H.
  - simpl in H. inversion H; subst. simpl. auto.
  - apply run_cons in H as (o & st1 & os & Hnext & Hrun & Houts). simpl in Houts, Hrun.
    subst outs. apply IH in Hrun as (He & Hi).
    apply next_ok_cases in Hnext as [Ho _].
    simpl List.length. simpl src_run.
    destruct o as [[r a]|].
    + destruct Ho as (Hx & _). rewrite Hx.
      destruct (src_run nx (iter st1) (List.length rest)) as [os' s2] eqn:E.
      simpl in *. rewrite He. auto.
    + destruct Ho as (Hx & _). rewrite Hx.
      destruct (src_run nx (iter st1) (List.length rest)) as [os' s2] eqn:E.
      simpl in *. rewrite He. auto.
Qed.

Lemma run_exhausted (Hf : fused nx) (clock : list Timespec) :
  forall (st : ProgressRecorderIter), fst (nx (iter st)) = None ->
  exists st', run nx sh st clock = Ok (repeat None (List.length clock), st') /\
              count st' = count st.
Proof.
  induction clock as [|now rest IH]; intros st Hn.
  - exists st. auto.
  - simpl. unfold next at 1. destruct (nx (iter st)) as [o s1] eqn:E. simpl in Hn. subst o.
    simpl.
    assert (Hn1 : fst (nx s1) = None).
    { pose proof (Hf (iter st)) as Hf'. rewrite E in Hf'. simpl in Hf'. auto. }
    destruct (IH {| iter := s1; count := count st; started_iterating := started_iterating st |} Hn1)
      as (st' & Hr & Hc).
    rewrite Hr. simpl. exists st'. auto.
Qed.

Lemma run_durations (clock : list Timespec) :
  forall (st st' : ProgressRecorderIter) outs,
  run nx sh st clock = Ok (outs, st') ->
  forall i r a, nth_error outs i = Some (Some (r, a)) ->
  exists now, nth_error clock i = Some now /\
    Timespec_sub now (started_iterating st) = Ok (iterating_for r).
Proof.
  induction clock as [|now rest IH]; intros st st' outs H.
  - simpl in H. inversion H; subst. intros [|i]; discriminate.
  - apply run_cons in H as (o & st1 & os & Hnext & Hrun & Houts). simpl in Houts, Hrun.
    subst outs. intros [|i] r a Hi; simpl in Hi.
    + inversion Hi; subst. apply next_some_inv in Hnext. exists now. simpl. tauto.
    + destruct (IH _ _ _ Hrun i r a Hi) as (t & Ht & Hd).
      apply next_ok_cases in Hnext as [_ Hs]. rewrite Hs in Hd. exists t. auto.
Qed.

Lemma next_panic_iff (st : ProgressRecorderIter) now :
  is_panic (next nx sh st now) = true <->
  (exists a s', nx (iter st) = (Some a, s')) /\
  ((usize_max <= count st)%N \/ is_panic (Timespec_sub now (started_iterating st)) = true).
Proof.
  unfold next. destruct (nx (iter st)) as [[a|] s'] eqn:E.
  - unfold generate_record. simpl. unfold usize_add.
    destruct (N.leb_spec (count st + 1) usize_max) as [Hle|Hgt]; simpl.
    + destruct (Timespec_sub now (started_iterating st)); simpl.
      * split; [discriminate|]. intros [_ [Hc|Hc]]; [lia|discriminate].
      * split; [intros _; split; [eauto|auto] | auto].
    + split; [intros _; split; [eauto|left; lia] | auto].
  - simpl. split; [discriminate|]. intros [(a & s'' & Hs) _]. discriminate.
Qed.

End RecorderFacts.

(** ** The time crate *)

Lemma Timespec_sub_ns (t1 t0 : Timespec) d :
  Timespec_sub t1 t0 = Ok d ->
  dur_ns d = (ts_ns t1 - ts_ns t0)%Z /\ (0 <= nanos d < NANOS_PER_SEC)%Z.
Proof.
  unfold Timespec_sub, i64_sub, Duration_seconds.
  destruct ((i64_min <=? sec t1 - sec t0)%Z && (sec t1 - sec t0 <=? i64_max)%Z); cbn [rbind];
    [|discriminate].
  destruct ((- duration_max_secs <=? sec t1 - sec t0)%Z &&
            (sec t1 - sec t0 <=? duration_max_secs)%Z); cbn [rbind]; [|discriminate].
  intro H. inversion H; subst. clear H.
  unfold Duration_add, Duration_nanoseconds, dur_ns, ts_ns. simpl.
  pose proof (Z.div_mod (nsec t1 - nsec t0) NANOS_PER_SEC ltac:(unfold NANOS_PER_SEC; lia)) as Hdm.
  pose proof (Z.mod_pos_bound (nsec t1 - nsec t0) NANOS_PER_SEC ltac:(unfold NANOS_PER_SEC; lia)) as Hb.
  unfold NANOS_PER_SEC in *.
  destruct (Z.leb_spec 1000000000 ((nsec t1 - nsec t0) mod 1000000000)) as [Hc|Hc];
    simpl; split; lia.
Qed.

Lemma quot_split (q nn : Z) :
  (0 <= nn < NANOS_PER_SEC)%Z ->
  Z.quot (q * NANOS_PER_SEC + nn) NANOS_PER_SEC =
  if (q <? 0)%Z && (0 <? nn)%Z then (q + 1)%Z else q.
Proof.
  intros Hn. unfold NANOS_PER_SEC in *.
  destruct (Z.ltb_spec q 0) as [Hq|Hq]; simpl.
  - replace (q * 1000000000 + nn)%Z with (- ((- q) * 1000000000 - nn))%Z by lia.
    rewrite Z.quot_opp_l by lia. rewrite Z.quot_div_nonneg by lia.
    destruct (Z.ltb_spec 0 nn) as [Hp|Hp].
    + assert (((- q) * 1000000000 - nn) / 1000000000 = - q - 1)%Z as ->; [|lia].
      symmetry. apply Z.div_unique with (1000000000 - nn)%Z; lia.
    + assert (((- q) * 1000000000 - nn) / 1000000000 = - q)%Z as ->; [|lia].
      symmetry. apply Z.div_unique with 0%Z; lia.
  - rewrite Z.quot_div_nonneg by lia. symmetry. apply Z.div_unique with nn; lia.
Qed.

Lemma num_seconds_quot (d : Duration) :
  (0 <= nanos d < NANOS_PER_SEC)%Z ->
  num_seconds d = Z.quot (dur_ns d) NANOS_PER_SEC.
Proof.
  intro H. unfold dur_ns, num_seconds. rewrite quot_split by exact H. reflexivity.
Qed.

Lemma Duration_le_ns (d1 d2 : Duration) :
  (0 <= nanos d1 < NANOS_PER_SEC)%Z -> (0 <= nanos d2 < NANOS_PER_SEC)%Z ->
  Duration_le d1 d2 = true <-> (dur_ns d1 <= dur_ns d2)%Z.
Proof.
  intros H1 H2. unfold Duration_le, dur_ns, NANOS_PER_SEC in *.
  rewrite orb_true_iff, andb_true_iff, Z.ltb_lt, Z.eqb_eq, Z.leb_le.
  split.
  - intros [H|[H H']]; [nia|]. rewrite H. lia.
  - intro H. destruct (Z.lt_trichotomy (secs d1) (secs d2)) as [Hl|[He|Hg]].
    + left. exact Hl.
    + right. split; [exact He|]. rewrite He in H. lia.
    + exfalso. nia.
Qed.

Lemma Timespec_sub_panic_iff (t1 t0 : Timespec) :
  valid_timespec t1 -> valid_timespec t0 ->
  is_panic (Timespec_sub t1 t0) = true <-> (duration_max_secs < Z.abs (sec t1 - sec t0))%Z.
Proof.
  unfold valid_timespec, i64_min, i64_max. intros [H1 _] [H0 _].
  unfold Timespec_sub, i64_sub, Duration_seconds, i64_min, i64_max, duration_max_secs.
  destruct (Z.leb_spec (- 2 ^ 63) (sec t1 - sec t0)); destruct (Z.leb_spec (sec t1 - sec t0) (2 ^ 63 - 1));
    simpl; try (split; [intros _; lia | auto]).
  destruct (Z.leb_spec (- 9223372036854775) (sec t1 - sec t0));
    destruct (Z.leb_spec (sec t1 - sec t0) 9223372036854775); simpl;
    split; try discriminate; try lia; auto.
Qed.

(** ** Rounding of [f32] results *)

Lemma shr_1_div2 (mrs : shr_record) :
  (0 <= shr_m mrs)%Z -> shr_m (shr_1 mrs) = Z.div2 (shr_m mrs).
Proof.
  destruct mrs as [m r s0]. simpl. intro H.
  destruct m as [|[p|p|]|p]; try reflexivity. lia.
Qed.

Lemma iter_shr_1_shiftr (p : positive) :
  forall mrs, (0 <= shr_m mrs)%Z ->
  shr_m (iter_pos shr_1 p mrs) = Z.shiftr (shr_m mrs) (Zpos p).
Proof.
  induction p as [p IH|p IH|]; intros mrs H; simpl.
  - rewrite IH.
    + rewrite IH by (rewrite shr_1_div2 by exact H; apply Z.div2_nonneg; exact H).
      rewrite shr_1_div2 by exact H. rewrite Z.div2_spec.
      rewrite !Z.shiftr_shiftr by lia. f_equal. lia.
    + rewrite IH by (rewrite shr_1_div2 by exact H; apply Z.div2_nonneg; exact H).
      apply Z.shiftr_nonneg. rewrite shr_1_div2 by exact H. apply Z.div2_nonneg. exact H.
  - rewrite IH.
    + rewrite IH by exact H. rewrite Z.shiftr_shiftr by lia. f_equal. lia.
    + rewrite IH by exact H. apply Z.shiftr_nonneg. exact H.
  - rewrite shr_1_div2 by exact H. rewrite Z.div2_spec. reflexivity.
Qed.

Lemma digits2_pos_lower (m : positive) : (2 ^ (Zpos (digits2_pos m) - 1) <= Zpos m)%Z.
Proof.
  induction m as [m IH|m IH|]; cbn [digits2_pos].
  - rewrite Pos2Z.inj_succ. replace (Z.succ (Zpos (digits2_pos m)) - 1)%Z
      with (Z.succ (Zpos (digits2_pos m) - 1))%Z by lia.
    rewrite Z.pow_succ_r by lia. lia.
  - rewrite Pos2Z.inj_succ. replace (Z.succ (Zpos (digits2_pos m)) - 1)%Z
      with (Z.succ (Zpos (digits2_pos m) - 1))%Z by lia.
    rewrite Z.pow_succ_r by lia. lia.
  - reflexivity.
Qed.

Lemma shr_pos (mrs : shr_record) (e n : Z) (m : positive) :
  shr_m mrs = Zpos m -> (n <= Zpos (digits2_pos m) - 1)%Z ->
  (0 < shr_m (fst (shr mrs e n)))%Z /\ (e <= snd (shr mrs e n))%Z.
Proof.
  intros Hm Hn. unfold shr. destruct n as [|q|q]; simpl; try (rewrite Hm; lia).
  rewrite iter_shr_1_shiftr by lia. rewrite Hm.
  rewrite Z.shiftr_div_pow2 by lia. split; [|lia].
  apply Z.div_str_pos. split; [apply Z.pow_pos_nonneg; lia|].
  eapply Z.le_trans; [|apply digits2_pos_lower].
  apply Z.pow_le_mono_r; lia.
Qed.

Lemma round_nearest_even_ge (m : Z) l : (m <= round_nearest_even m l)%Z.
Proof.
  destruct l as [|[| |]]; simpl; try lia. destruct (Z.even m); lia.
Qed.

(** [binary32]: [emin = -149] and [fexp e = max (e - 24) (-149)]. *)
Lemma f32_fexp (e : Z) : fexp f32_prec f32_emax e = Z.max (e - 24) (-149).
Proof. reflexivity. Qed.

Lemma shr_fexp_pos (m : positive) (e : Z) l :
  (-149 <= e)%Z ->
  (0 < shr_m (fst (shr_fexp f32_prec f32_emax (Zpos m) e l)))%Z /\
  (e <= snd (shr_fexp f32_prec f32_emax (Zpos m) e l))%Z.
Proof.
  intro He. unfold shr_fexp. rewrite f32_fexp.
  apply shr_pos with (m := m).
  - destruct l as [|[| |]]; reflexivity.
  - simpl Zdigits2. lia.
Qed.

(** A positive mantissa with an exponent not below [emin] rounds to a
    positive finite number or to [+inf]: never to zero or NaN. *)
Lemma binary_round_aux_pos (m : positive) (e : Z) l :
  (-149 <= e)%Z ->
  (exists m' e', binary_round_aux f32_prec f32_emax false (Zpos m) e l = S754_finite false m' e') \/
  binary_round_aux f32_prec f32_emax false (Zpos m) e l = S754_infinity false.
Proof.
  intro He. unfold binary_round_aux.
  destruct (shr_fexp_pos m e l He) as [H1 H1e].
  destruct (shr_fexp f32_prec f32_emax (Zpos m) e l) as [mrs' e'] eqn:E1. simpl in H1, H1e.
  pose proof (round_nearest_even_ge (shr_m mrs') (loc_of_shr_record mrs')) as Hr.
  destruct (round_nearest_even (shr_m mrs') (loc_of_shr_record mrs')) as [|r|r] eqn:Er; try lia.
  destruct (shr_fexp_pos r e' loc_Exact ltac:(lia)) as [H2 _].
  destruct (shr_fexp f32_prec f32_emax (Zpos r) e' loc_Exact) as [mrs'' e''] eqn:E2.
  simpl in H2. destruct (shr_m mrs'') as [|m''|m'']; try lia.
  destruct (e'' <=? f32_emax - f32_prec)%Z; [left; eauto|right; reflexivity].
Qed.

Lemma f32_of_Z_pos (p : positive) :
  (exists m e, f32_of_Z (Zpos p) = S754_finite false m e) \/
  f32_of_Z (Zpos p) = S754_infinity false.
Proof.
  unfold f32_of_Z, binary_normalize, binary_round.
  unfold shl_align. rewrite f32_fexp.
  destruct (Z.max (Zpos (digits2_pos p) + 0 - 24) (-149) - 0)%Z as [|q|q] eqn:Eq;
    apply binary_round_aux_pos; lia.
Qed.

Lemma f32_div_by_zero (x : f32) :
  ((exists m e, x = S754_finite false m e) \/ x = S754_infinity false) ->
  f32_div x (f32_of_Z 0) = f32_infinity.
Proof. intros [(m & e & ->)| ->]; reflexivity. Qed.

Ltac zbool_cases :=
  repeat match goal with
  | |- context [(?a <=? ?b)%Z] => destruct (Z.leb_spec a b)
  | |- context [(?a =? ?b)%Z] => destruct (Z.eqb_spec a b)
  | |- context [(?a <? ?b)%Z] => destruct (Z.ltb_spec a b)
  end.

Lemma shr_1_fields (mrs : shr_record) :
  (0 <= shr_m mrs)%Z ->
  shr_m (shr_1 mrs) = (shr_m mrs / 2)%Z /\ shr_r (shr_1 mrs) = Z.odd (shr_m mrs) /\
  shr_s (shr_1 mrs) = (shr_r mrs || shr_s mrs).
Proof.
  intro H. rewrite shr_1_div2 by exact H. rewrite Z.div2_div.
  destruct mrs as [m r s0]. simpl in *.
  destruct m as [|[p|p|]|p]; simpl; auto; lia.
Qed.

Lemma shr_1_approx (mrs : shr_record) (N D : Z) :
  rec_approx mrs N D -> rec_approx (shr_1 mrs) N (2 * D).
Proof.
  intros (HD & HN & Hm & Hr & Hs).
  assert (Hq : (0 <= N / D)%Z) by (apply Z.div_pos; lia).
  destruct (shr_1_fields mrs ltac:(lia)) as (Hm1 & Hr1 & Hs1).
  pose proof (Z.div_mod N D ltac:(lia)) as HNd.
  pose proof (Z.mod_pos_bound N D HD) as Hrem.
  pose proof (Z.div_mod (N / D) 2 ltac:(lia)) as Hq2.
  pose proof (Z.mod_pos_bound (N / D) 2 ltac:(lia)) as Hq2b.
  assert (Hdiv : (N / (2 * D) = N / D / 2)%Z).
  { rewrite Z.div_div by lia. f_equal. lia. }
  assert (Hmod : (N mod (2 * D) = N mod D + D * ((N / D) mod 2))%Z).
  { symmetry. apply Z.mod_unique with (N / D / 2)%Z; [left; nia|nia]. }
  pose proof (Zmod_odd (N / D)) as Hodd.
  unfold rec_approx. split; [lia|]. split; [exact HN|].
  rewrite Hm1, Hr1, Hs1, Hm, Hr, Hs, Hdiv, Hmod.
  split; [reflexivity|].
  destruct (Z.odd (N / D)); rewrite Hodd; split; zbool_cases; simpl; auto; lia.
Qed.

Lemma iter_shr_1_approx (p : positive) :
  forall mrs N D, rec_approx mrs N D -> rec_approx (iter_pos shr_1 p mrs) N (D * 2 ^ Zpos p).
Proof.
  induction p as [p IH|p IH|]; intros mrs N D H; cbn [iter_pos].
  - replace (D * 2 ^ Zpos p~1)%Z with (2 * D * 2 ^ Zpos p * 2 ^ Zpos p)%Z.
    + apply IH, IH, shr_1_approx, H.
    + rewrite (Pos2Z.inj_xI p).
      replace (2 * Zpos p + 1)%Z with (Zpos p + Zpos p + 1)%Z by lia.
      rewrite !Z.pow_add_r by lia. ring.
  - replace (D * 2 ^ Zpos p~0)%Z with (D * 2 ^ Zpos p * 2 ^ Zpos p)%Z.
    + apply IH, IH, H.
    + rewrite (Pos2Z.inj_xO p).
      replace (2 * Zpos p)%Z with (Zpos p + Zpos p)%Z by lia.
      rewrite !Z.pow_add_r by lia. ring.
  - replace (D * 2 ^ 1)%Z with (2 * D)%Z by ring. apply shr_1_approx, H.
Qed.

Lemma shr_approx (mrs : shr_record) (N D e n : Z) :
  rec_approx mrs N D ->
  rec_approx (fst (shr mrs e n)) N (D * 2 ^ Z.max n 0) /\
  snd (shr mrs e n) = (e + Z.max n 0)%Z.
Proof.
  intro H. destruct n as [|q|q]; simpl.
  - rewrite Z.mul_1_r, Z.add_0_r. auto.
  - split; [apply iter_shr_1_approx, H|reflexivity].
  - rewrite Z.mul_1_r, Z.add_0_r. auto.
Qed.

Lemma rne_correct (mrs : shr_record) (N D : Z) :
  rec_approx mrs N D ->
  round_nearest_even (shr_m mrs) (loc_of_shr_record mrs) = rne_val N D.
Proof.
  destruct mrs as [m r s0]. unfold rec_approx. cbn [shr_m shr_r shr_s].
  intros (HD & HN & -> & -> & ->). unfold rne_val.
  pose proof (Z.mod_pos_bound N D HD).
  set (q := (N / D)%Z). set (rm := (N mod D)%Z) in *.
  destruct (Z.compare_spec (2 * rm) D); zbool_cases;
    cbn [negb orb loc_of_shr_record round_nearest_even]; try reflexivity; lia.
Qed.

Lemma rne_val_ge_div (N D : Z) : (N / D <= rne_val N D)%Z.
Proof.
  unfold rne_val. destruct (Z.compare (2 * (N mod D)) D); try lia.
  destruct (Z.even (N / D)); lia.
Qed.

Lemma rne_val_le_succ (N D : Z) : (rne_val N D <= N / D + 1)%Z.
Proof.
  unfold rne_val. destruct (Z.compare (2 * (N mod D)) D); try lia.
  destruct (Z.even (N / D)); lia.
Qed.

Lemma rne_val_le (N D C : Z) :
  (0 < D)%Z -> (N <= C * D)%Z -> (rne_val N D <= C)%Z.
Proof.
  intros HD HN.
  pose proof (Z.div_mod N D ltac:(lia)) as Hd.
  pose proof (Z.mod_pos_bound N D HD) as Hm.
  assert (Hq : (N / D <= C)%Z) by (apply Z.div_le_upper_bound; lia).
  pose proof (rne_val_le_succ N D).
  destruct (Z.eq_dec (N / D) C) as [Heq|Hne]; [|lia].
  assert (H0 : (N mod D = 0)%Z) by nia.
  unfold rne_val. rewrite H0.
  destruct (Z.compare_spec (2 * 0) D); lia.
Qed.

Lemma rne_val_ge (N D C : Z) :
  (0 < D)%Z -> (C * D <= N)%Z -> (C <= rne_val N D)%Z.
Proof.
  intros HD HN. eapply Z.le_trans; [|apply rne_val_ge_div].
  apply Z.div_le_lower_bound; lia.
Qed.

Lemma rne_val_mono (N1 N2 D : Z) :
  (0 < D)%Z -> (N1 <= N2)%Z -> (rne_val N1 D <= rne_val N2 D)%Z.
Proof.
  intros HD HN.
  assert (Hq : (N1 / D <= N2 / D)%Z) by (apply Z.div_le_mono; lia).
  pose proof (rne_val_ge_div N2 D). pose proof (rne_val_le_succ N1 D).
  destruct (Z.eq_dec (N1 / D) (N2 / D)) as [Heq|Hne]; [|lia].
  pose proof (Z.div_mod N1 D ltac:(lia)). pose proof (Z.div_mod N2 D ltac:(lia)).
  unfold rne_val. rewrite Heq.
  destruct (Z.compare_spec (2 * (N1 mod D)) D);
    destruct (Z.compare_spec (2 * (N2 mod D)) D); try lia;
    destruct (Z.even (N2 / D)); lia.
Qed.

Lemma exact_approx (m : Z) :
  (0 <= m)%Z -> rec_approx (shr_record_of_loc m loc_Exact) m 1.
Proof.
  intro H. unfold rec_approx. simpl. rewrite Z.div_1_r, Z.mod_1_r. auto with zarith.
Qed.

Lemma digits2_pos_upper (m : positive) : (Zpos m < 2 ^ Zpos (digits2_pos m))%Z.
Proof.
  induction m as [m IH|m IH|]; cbn [digits2_pos].
  - rewrite Pos2Z.inj_succ, Z.pow_succ_r by lia. lia.
  - rewrite Pos2Z.inj_succ, Z.pow_succ_r by lia. lia.
  - reflexivity.
Qed.

Lemma digits2_pos_unique (m : positive) (d : Z) :
  (2 ^ (d - 1) <= Zpos m < 2 ^ d)%Z -> Zpos (digits2_pos m) = d.
Proof.
  intros [H1 H2].
  pose proof (digits2_pos_lower m). pose proof (digits2_pos_upper m).
  assert (Hd : (1 <= d)%Z).
  { destruct (Z.le_gt_cases 1 d) as [|Hlt]; [assumption|].
    assert (2 ^ d <= 1)%Z by (destruct d; simpl; lia). lia. }
  destruct (Z.lt_total (Zpos (digits2_pos m)) d) as [Hlt|[Heq|Hgt]]; [|exact Heq|].
  - assert (2 ^ Zpos (digits2_pos m) <= 2 ^ (d - 1))%Z by (apply Z.pow_le_mono_r; lia). lia.
  - assert (2 ^ d <= 2 ^ (Zpos (digits2_pos m) - 1))%Z by (apply Z.pow_le_mono_r; lia). lia.
Qed.

Lemma shr_m_of_loc (m : Z) l : shr_m (shr_record_of_loc m l) = m.
Proof. destruct l as [|[| |]]; reflexivity. Qed.

(** A positive [k]-digit bound: [2^(d-1) <= m <= B * P < 2^24 * P] forces
    [d - 1 < 24 + log2 P]. *)
Lemma digits_bound (m : positive) (B P x : Z) :
  (0 <= x)%Z -> P = (2 ^ x)%Z -> (B < 2 ^ 24)%Z -> (Zpos m <= B * P)%Z ->
  (Zpos (digits2_pos m) - x - 24 <= 0)%Z.
Proof.
  intros Hx HP HB Hm. pose proof (digits2_pos_lower m) as Hl.
  destruct (Z.le_gt_cases (Zpos (digits2_pos m) - x - 24) 0) as [|Hgt]; [assumption|exfalso].
  assert (Hp : (2 ^ (24 + x) <= 2 ^ (Zpos (digits2_pos m) - 1))%Z)
    by (apply Z.pow_le_mono_r; lia).
  rewrite Z.pow_add_r in Hp by lia.
  assert (0 < P)%Z by (subst P; apply Z.pow_pos_nonneg; lia).
  nia.
Qed.

(** Rounding a positive value [N / D * 2^ex] that is at most the integer
    [B] (with [0 < B < 2^24] and [ex <= 0]) gives a positive finite number
    that is still at most [B]. *)
Lemma round_aux_le (mx : positive) (ex : Z) lx (N D B : Z) :
  rec_approx (shr_record_of_loc (Zpos mx) lx) N D ->
  (-149 <= ex <= 0)%Z -> (0 < B < 2 ^ 24)%Z -> (N <= B * D * 2 ^ (- ex))%Z ->
  f32_pos_le (binary_round_aux f32_prec f32_emax false (Zpos mx) ex lx) B.
Proof.
  intros Ha [Hex0 Hex1] [HB0 HB1] HN.
  assert (Hmx : Zpos mx = (N / D)%Z).
  { destruct Ha as (_ & _ & Hm & _). rewrite shr_m_of_loc in Hm. exact Hm. }
  assert (HD : (0 < D)%Z) by (destruct Ha; assumption).
  assert (HmxD : (Zpos mx * D <= N)%Z) by (rewrite Hmx, Z.mul_comm; apply Z.mul_div_le; lia).
  unfold binary_round_aux.
  destruct (shr_fexp_pos mx ex lx Hex0) as [H1 _].
  assert (E1 : shr_fexp f32_prec f32_emax (Zpos mx) ex lx =
     shr (shr_record_of_loc (Zpos mx) lx) ex
       (Z.max (Zpos (digits2_pos mx) + ex - 24) (-149) - ex)) by reflexivity.
  destruct (shr_approx _ _ _ ex (Z.max (Zpos (digits2_pos mx) + ex - 24) (-149) - ex) Ha)
    as [Ha1 He1].
  rewrite <- E1 in Ha1, He1.
  destruct (shr_fexp f32_prec f32_emax (Zpos mx) ex lx) as [mrs' e1] eqn:Es1.
  cbn [fst snd] in H1, Ha1, He1.
  set (d := Zpos (digits2_pos mx)) in *.
  set (k := Z.max (Z.max (d + ex - 24) (-149) - ex) 0) in *.
  assert (Hpx : (0 < 2 ^ (- ex))%Z) by (apply Z.pow_pos_nonneg; lia).
  assert (Hd : (d - (- ex) - 24 <= 0)%Z).
  { apply (digits_bound mx B (2 ^ (- ex)) (- ex)); try lia. nia. }
  assert (He1v : e1 = Z.max ex (Z.max (d + ex - 24) (-149))) by lia.
  assert (Hpow : (2 ^ (- ex) = 2 ^ (- e1) * 2 ^ k)%Z)
    by (rewrite <- Z.pow_add_r by lia; f_equal; lia).
  assert (HP1 : (0 < 2 ^ (- e1))%Z) by (apply Z.pow_pos_nonneg; lia).
  assert (HPk : (0 < 2 ^ k)%Z) by (apply Z.pow_pos_nonneg; lia).
  pose proof (round_nearest_even_ge (shr_m mrs') (loc_of_shr_record mrs')) as Hge.
  rewrite (rne_correct _ _ _ Ha1) in Hge |- *.
  assert (HW : (rne_val N (D * 2 ^ k) <= B * 2 ^ (- e1))%Z).
  { apply rne_val_le; [nia|]. rewrite Hpow in HN. nia. }
  destruct (rne_val N (D * 2 ^ k)) as [|r|r] eqn:EW; try lia.
  destruct (shr_fexp_pos r e1 loc_Exact ltac:(lia)) as [H2 _].
  assert (E2 : shr_fexp f32_prec f32_emax (Zpos r) e1 loc_Exact =
     shr (shr_record_of_loc (Zpos r) loc_Exact) e1
       (Z.max (Zpos (digits2_pos r) + e1 - 24) (-149) - e1)) by reflexivity.
  destruct (shr_approx _ _ _ e1 (Z.max (Zpos (digits2_pos r) + e1 - 24) (-149) - e1)
              (exact_approx (Zpos r) ltac:(lia))) as [Ha2 He2].
  rewrite <- E2 in Ha2, He2.
  destruct (shr_fexp f32_prec f32_emax (Zpos r) e1 loc_Exact) as [mrs'' e''] eqn:Es2.
  cbn [fst snd] in H2, Ha2, He2.
  destruct Ha2 as (_ & _ & Hm2 & _).
  set (dr := Zpos (digits2_pos r)) in *.
  set (k2 := Z.max (Z.max (dr + e1 - 24) (-149) - e1) 0) in *.
  assert (Hdr : (dr - (- e1) - 24 <= 0)%Z)
    by (apply (digits_bound r B (2 ^ (- e1)) (- e1)); lia).
  assert (He2v : e'' = Z.max e1 (Z.max (dr + e1 - 24) (-149))) by lia.
  destruct (shr_m mrs'') as [|m''|m''] eqn:Em; try lia.
  replace (e'' <=? f32_emax - f32_prec)%Z with true
    by (symmetry; apply Z.leb_le; unfold f32_emax, f32_prec; lia).
  rewrite Z.mul_1_l in Hm2.
  assert (Hk2 : (0 <= k2)%Z) by lia.
  assert (HPk2 : (0 < 2 ^ k2)%Z) by (apply Z.pow_pos_nonneg; lia).
  assert (Hmr : (Zpos m'' * 2 ^ k2 <= Zpos r)%Z)
    by (rewrite Hm2, Z.mul_comm; apply Z.mul_div_le; lia).
  assert (Hpow2 : (2 ^ (- e1) = 2 ^ (- e'') * 2 ^ k2)%Z)
    by (rewrite <- Z.pow_add_r by lia; f_equal; lia).
  assert (HP2 : (0 < 2 ^ (- e''))%Z) by (apply Z.pow_pos_nonneg; lia).
  assert (Hfin : (Zpos m'' <= B * 2 ^ (- e''))%Z).
  { rewrite Hpow2 in HW. nia. }
  unfold f32_pos_le.
  destruct (Z.leb_spec 0 e'') as [Hz|Hz]; [|exact Hfin].
  assert (e'' = 0)%Z as -> by lia. simpl in Hfin |- *. lia.
Qed.

(** Rounding a value whose mantissa has at least 24 digits, in the normal
    range: the result has a 24-digit mantissa, its exponent is that of the
    first shift or one more (when rounding carries into a 25th digit), and
    its value is the rounded quotient. *)
Lemma round_aux_normal (mx : positive) (ex : Z) lx (N D : Z) :
  rec_approx (shr_record_of_loc (Zpos mx) lx) N D ->
  (24 <= Zpos (digits2_pos mx))%Z ->
  (-149 <= Zpos (digits2_pos mx) + ex - 24)%Z ->
  (Zpos (digits2_pos mx) + ex <= 100)%Z ->
  exists m e,
    binary_round_aux f32_prec f32_emax false (Zpos mx) ex lx = S754_finite false m e /\
    (2 ^ 23 <= Zpos m < 2 ^ 24)%Z /\
    (ex + Zpos (digits2_pos mx) - 24 <= e <= ex + Zpos (digits2_pos mx) - 23)%Z /\
    (Zpos m * 2 ^ (e - (ex + Zpos (digits2_pos mx) - 24))
       = rne_val N (D * 2 ^ (Zpos (digits2_pos mx) - 24)))%Z.
Proof.
  intros Ha Hd24 Hdmin Hdmax.
  assert (Hmx : Zpos mx = (N / D)%Z).
  { destruct Ha as (_ & _ & Hm & _). rewrite shr_m_of_loc in Hm. exact Hm. }
  assert (HD : (0 < D)%Z) by (destruct Ha; assumption).
  pose proof (digits2_pos_lower mx) as Hlo. pose proof (digits2_pos_upper mx) as Hhi.
  unfold binary_round_aux.
  assert (E1 : shr_fexp f32_prec f32_emax (Zpos mx) ex lx =
     shr (shr_record_of_loc (Zpos mx) lx) ex
       (Z.max (Zpos (digits2_pos mx) + ex - 24) (-149) - ex)) by reflexivity.
  destruct (shr_approx _ _ _ ex (Z.max (Zpos (digits2_pos mx) + ex - 24) (-149) - ex) Ha)
    as [Ha1 He1].
  rewrite <- E1 in Ha1, He1.
  destruct (shr_fexp f32_prec f32_emax (Zpos mx) ex lx) as [mrs' e1] eqn:Es1.
  cbn [fst snd] in Ha1, He1.
  set (d := Zpos (digits2_pos mx)) in *.
  assert (Hk : Z.max (Z.max (d + ex - 24) (-149) - ex) 0 = (d - 24)%Z) by lia.
  rewrite Hk in Ha1, He1.
  assert (HPk : (0 < 2 ^ (d - 24))%Z) by (apply Z.pow_pos_nonneg; lia).
  assert (Hq : (N / (D * 2 ^ (d - 24)) = Zpos mx / 2 ^ (d - 24))%Z)
    by (rewrite Hmx, Z.div_div by lia; reflexivity).
  assert (Hd1 : (2 ^ (d - 1) = 2 ^ (d - 24) * 2 ^ 23)%Z)
    by (rewrite <- Z.pow_add_r by lia; f_equal; lia).
  assert (Hd0 : (2 ^ d = 2 ^ (d - 24) * 2 ^ 24)%Z)
    by (rewrite <- Z.pow_add_r by lia; f_equal; lia).
  assert (Hqlo : (2 ^ 23 <= Zpos mx / 2 ^ (d - 24))%Z)
    by (apply Z.div_le_lower_bound; lia).
  assert (Hqhi : (Zpos mx / 2 ^ (d - 24) < 2 ^ 24)%Z)
    by (apply Z.div_lt_upper_bound; lia).
  rewrite (rne_correct _ _ _ Ha1).
  pose proof (rne_val_ge_div N (D * 2 ^ (d - 24))) as HW1.
  pose proof (rne_val_le_succ N (D * 2 ^ (d - 24))) as HW2.
  rewrite Hq in HW1, HW2.
  destruct (rne_val N (D * 2 ^ (d - 24))) as [|r|r] eqn:EW; try lia.
  assert (E2 : shr_fexp f32_prec f32_emax (Zpos r) e1 loc_Exact =
     shr (shr_record_of_loc (Zpos r) loc_Exact) e1
       (Z.max (Zpos (digits2_pos r) + e1 - 24) (-149) - e1)) by reflexivity.
  destruct (shr_approx _ _ _ e1 (Z.max (Zpos (digits2_pos r) + e1 - 24) (-149) - e1)
              (exact_approx (Zpos r) ltac:(lia))) as [Ha2 He2].
  rewrite <- E2 in Ha2, He2.
  destruct (shr_fexp f32_prec f32_emax (Zpos r) e1 loc_Exact) as [mrs'' e''] eqn:Es2.
  cbn [fst snd] in Ha2, He2.
  destruct Ha2 as (_ & _ & Hm2 & _). rewrite Z.mul_1_l in Hm2.
  destruct (Z.eq_dec (Zpos r) (2 ^ 24)) as [Hr|Hr].
  - assert (Hdr : Zpos (digits2_pos r) = 25%Z)
      by (apply digits2_pos_unique; rewrite Hr; simpl; lia).
    rewrite Hdr in Hm2, He2.
    assert (Hk2 : Z.max (Z.max (25 + e1 - 24) (-149) - e1) 0 = 1%Z) by lia.
    rewrite Hk2 in Hm2, He2. rewrite Hr in Hm2. simpl in Hm2.
    rewrite Hm2.
    replace (e'' <=? f32_emax - f32_prec)%Z with true
      by (symmetry; apply Z.leb_le; unfold f32_emax, f32_prec; lia).
    exists 8388608%positive, e''. split; [reflexivity|].
    split; [simpl; lia|]. split; [lia|].
    rewrite Hr. replace (e'' - (ex + d - 24))%Z with 1%Z by lia. reflexivity.
  - assert (Hdr : Zpos (digits2_pos r) = 24%Z)
      by (apply digits2_pos_unique; simpl; lia).
    rewrite Hdr in Hm2, He2.
    assert (Hk2 : Z.max (Z.max (24 + e1 - 24) (-149) - e1) 0 = 0%Z) by lia.
    rewrite Hk2 in Hm2, He2. rewrite Z.div_1_r in Hm2.
    rewrite Hm2.
    replace (e'' <=? f32_emax - f32_prec)%Z with true
      by (symmetry; apply Z.leb_le; unfold f32_emax, f32_prec; lia).
    exists r, e''. split; [reflexivity|].
    split; [lia|]. split; [lia|].
    replace (e'' - (ex + d - 24))%Z with 0%Z by lia. lia.
Qed.

Lemma pos_iter_xO (p n : positive) :
  Zpos (Pos.iter xO p n) = (Zpos p * 2 ^ Zpos n)%Z.
Proof.
  induction n as [|n IH] using Pos.peano_ind.
  - simpl. lia.
  - rewrite Pos.iter_succ, Pos2Z.inj_xO, IH, Pos2Z.inj_succ, Z.pow_succ_r by lia. ring.
Qed.

Lemma rne_val_1 (x : Z) : rne_val x 1 = x.
Proof. unfold rne_val. rewrite Z.div_1_r, Z.mod_1_r. reflexivity. Qed.

(** Conversion of a positive integer of at most 100 bits to [f32]: a
    24-digit mantissa, and the value [p] rounded to [24] significant bits,
    scaled by [2^23] to stay an integer. *)
Lemma shl_align_ge (mx : positive) (ex ex' : Z) :
  (ex <= ex')%Z -> shl_align mx ex ex' = (mx, ex).
Proof. intro H. unfold shl_align. destruct (ex' - ex)%Z eqn:E; reflexivity || lia. Qed.

Lemma shl_align_lt (mx : positive) (ex ex' : Z) :
  (ex' < ex)%Z -> shl_align mx ex ex' = (Pos.iter xO mx (Z.to_pos (ex - ex')), ex').
Proof.
  intro H. unfold shl_align. destruct (ex' - ex)%Z as [|n|n] eqn:E; try lia.
  replace (ex - ex')%Z with (Zpos n) by lia. reflexivity.
Qed.

Lemma f32_of_Z_spec (p : positive) :
  (Zpos (digits2_pos p) <= 100)%Z ->
  exists m e, f32_of_Z (Zpos p) = S754_finite false m e /\
    (2 ^ 23 <= Zpos m < 2 ^ 24)%Z /\ (-23 <= e <= Zpos (digits2_pos p) - 23)%Z /\
    (Zpos m * 2 ^ (e + 23) =
       rne_val (Zpos p) (2 ^ Z.max (Zpos (digits2_pos p) - 24) 0) *
       2 ^ (Z.max (Zpos (digits2_pos p) - 24) 0 + 23))%Z.
Proof.
  intro HD. unfold f32_of_Z, binary_normalize, binary_round.
  rewrite f32_fexp.
  pose proof (digits2_pos_lower p) as Hlo. pose proof (digits2_pos_upper p) as Hhi.
  set (D := Zpos (digits2_pos p)) in *.
  destruct (Z.le_gt_cases 24 D) as [Hge|Hlt].
  - rewrite shl_align_ge by lia. cbv beta iota.
    destruct (round_aux_normal p 0 loc_Exact (Zpos p) 1 (exact_approx (Zpos p) ltac:(lia)))
      as (m & e & E & Hm & He & Hv); try (fold D; lia).
    fold D in He, Hv. rewrite E. exists m, e.
    split; [reflexivity|]. split; [exact Hm|]. split; [lia|].
    rewrite Z.mul_1_l in Hv.
    replace (Z.max (D - 24) 0) with (D - 24)%Z by lia.
    replace (e + 23)%Z with ((e - (0 + D - 24)) + (D - 24 + 23))%Z by lia.
    rewrite Z.pow_add_r by lia. rewrite Z.mul_assoc, Hv. reflexivity.
  - rewrite shl_align_lt by lia. cbv beta iota.
    set (n := Z.to_pos (0 - Z.max (D + 0 - 24) (-149))).
    assert (Hn : Zpos n = (24 - D)%Z) by (unfold n; rewrite Z2Pos.id; lia).
    replace (Z.max (D + 0 - 24) (-149)) with (D - 24)%Z by lia.
    pose proof (pos_iter_xO p n) as Hmz.
    set (mz := Pos.iter xO p n) in *.
    assert (HP : (2 ^ 24 = 2 ^ (D - 1) * 2 ^ Zpos n * 2)%Z).
    { replace 24%Z with ((D - 1) + Zpos n + 1)%Z at 1 by lia.
      rewrite !Z.pow_add_r by lia. reflexivity. }
    assert (HP' : (2 ^ D = 2 ^ (D - 1) * 2)%Z).
    { replace D with ((D - 1) + 1)%Z at 1 by lia. rewrite Z.pow_add_r by lia. reflexivity. }
    assert (Hdz : Zpos (digits2_pos mz) = 24%Z).
    { apply digits2_pos_unique. rewrite Hmz.
      assert (0 < 2 ^ Zpos n)%Z by (apply Z.pow_pos_nonneg; lia).
      replace (24 - 1)%Z with 23%Z by lia.
      assert (H23 : (2 ^ 23 * 2 = 2 ^ 24)%Z) by reflexivity. nia. }
    destruct (round_aux_normal mz (D - 24) loc_Exact (Zpos mz) 1
                (exact_approx (Zpos mz) ltac:(lia)))
      as (m & e & E & Hm & He & Hv); try (rewrite Hdz; lia).
    rewrite Hdz in He, Hv. rewrite E. exists m, e.
    split; [reflexivity|]. split; [exact Hm|]. split; [lia|].
    replace (24 - 24)%Z with 0%Z in Hv by lia. rewrite Z.mul_1_l, Z.pow_0_r, rne_val_1 in Hv.
    replace (Z.max (D - 24) 0) with 0%Z by lia. rewrite rne_val_1.
    replace (e + 23)%Z with ((e - (D - 24 + 24 - 24)) + (D - 1))%Z by lia.
    rewrite Z.pow_add_r by lia. rewrite Z.mul_assoc, Hv, Hmz.
    simpl (2 ^ 0)%Z. rewrite Hn.
    rewrite <- Z.mul_assoc, <- Z.pow_add_r by lia. do 2 f_equal. lia.
Qed.

Lemma digits2_pos_le (p : positive) (k : Z) :
  (Zpos p < 2 ^ k)%Z -> (Zpos (digits2_pos p) <= k)%Z.
Proof.
  intro H. pose proof (digits2_pos_lower p).
  destruct (Z.le_gt_cases (Zpos (digits2_pos p)) k) as [|Hgt]; [assumption|].
  assert (2 ^ k <= 2 ^ (Zpos (digits2_pos p) - 1))%Z by (apply Z.pow_le_mono_r; lia). lia.
Qed.

Lemma digits2_pos_mono (a t : positive) :
  (Zpos a <= Zpos t)%Z -> (Zpos (digits2_pos a) <= Zpos (digits2_pos t))%Z.
Proof.
  intro H. apply digits2_pos_le. pose proof (digits2_pos_upper t). lia.
Qed.

(** The value of the [f32] nearest to [p], scaled by [2^23]. *)
Lemma f32_val_mono (a t : positive) :
  (Zpos a <= Zpos t)%Z ->
  (rne_val (Zpos a) (2 ^ Z.max (Zpos (digits2_pos a) - 24) 0) *
     2 ^ (Z.max (Zpos (digits2_pos a) - 24) 0 + 23) <=
   rne_val (Zpos t) (2 ^ Z.max (Zpos (digits2_pos t) - 24) 0) *
     2 ^ (Z.max (Zpos (digits2_pos t) - 24) 0 + 23))%Z.
Proof.
  intro H. pose proof (digits2_pos_mono a t H) as Hd.
  pose proof (digits2_pos_upper a) as Hau. pose proof (digits2_pos_lower t) as Htl.
  set (Da := Zpos (digits2_pos a)) in *. set (Dt := Zpos (digits2_pos t)) in *.
  set (Ka := Z.max (Da - 24) 0). set (Kt := Z.max (Dt - 24) 0).
  assert (HPa : (0 < 2 ^ Ka)%Z) by (apply Z.pow_pos_nonneg; lia).
  assert (HPt : (0 < 2 ^ Kt)%Z) by (apply Z.pow_pos_nonneg; lia).
  destruct (Z.eq_dec Ka Kt) as [Heq|Hne].
  - rewrite <- Heq. apply Z.mul_le_mono_nonneg_r; [apply Z.pow_nonneg; lia|].
    apply rne_val_mono; lia.
  - assert (HK : (Ka < Kt)%Z) by lia.
    assert (HA : (rne_val (Zpos a) (2 ^ Ka) <= 2 ^ (Da - Ka))%Z).
    { apply rne_val_le; [lia|]. rewrite <- Z.pow_add_r by lia.
      replace (Da - Ka + Ka)%Z with Da by lia. lia. }
    assert (HT : (2 ^ (Dt - 1 - Kt) <= rne_val (Zpos t) (2 ^ Kt))%Z).
    { apply rne_val_ge; [lia|]. rewrite <- Z.pow_add_r by lia.
      replace (Dt - 1 - Kt + Kt)%Z with (Dt - 1)%Z by lia. lia. }
    apply Z.le_trans with (2 ^ (Da - Ka) * 2 ^ (Ka + 23))%Z.
    + apply Z.mul_le_mono_nonneg_r; [apply Z.pow_nonneg; lia|exact HA].
    + apply Z.le_trans with (2 ^ (Dt - 1 - Kt) * 2 ^ (Kt + 23))%Z.
      * rewrite <- !Z.pow_add_r by lia. apply Z.pow_le_mono_r; lia.
      * apply Z.mul_le_mono_nonneg_r; [apply Z.pow_nonneg; lia|exact HT].
Qed.

Lemma Z_div_eucl_pair (a b : Z) : Z.div_eucl a b = (a / b, a mod b)%Z.
Proof. unfold Z.div, Z.modulo. destruct (Z.div_eucl a b). reflexivity. Qed.

Lemma new_location_approx (N D : Z) :
  (0 < D)%Z -> (0 <= N)%Z ->
  rec_approx (shr_record_of_loc (N / D) (new_location D (N mod D))) N D.
Proof.
  intros HD HN. pose proof (Z.mod_pos_bound N D HD) as Hr.
  unfold rec_approx. split; [exact HD|]. split; [exact HN|].
  rewrite shr_m_of_loc. split; [reflexivity|].
  set (rm := (N mod D)%Z) in *.
  unfold new_location, new_location_even, new_location_odd.
  destruct (Z.even D) eqn:Ev.
  - destruct (Z.eqb_spec rm 0) as [H0|H0].
    + rewrite H0. simpl. zbool_cases; simpl; split; reflexivity || lia.
    + destruct (Z.compare_spec (2 * rm) D); cbn [shr_record_of_loc shr_r shr_s];
        zbool_cases; simpl; split; reflexivity || lia.
  - assert (Hne : (2 * rm <> D)%Z).
    { intro E. rewrite <- E, Z.even_mul in Ev. discriminate. }
    destruct (Z.eqb_spec rm 0) as [H0|H0].
    + rewrite H0. simpl. zbool_cases; simpl; split; reflexivity || lia.
    + destruct (Z.compare_spec (2 * rm + 1) D); cbn [shr_record_of_loc shr_r shr_s];
        zbool_cases; simpl; split; reflexivity || lia.
Qed.

Lemma div_core_24 (m1 m2 : positive) (e1 e2 : Z) :
  Zpos (digits2_pos m1) = 24%Z -> Zpos (digits2_pos m2) = 24%Z -> (-125 <= e1 - e2)%Z ->
  SFdiv_core_binary f32_prec f32_emax (Zpos m1) e1 (Zpos m2) e2 =
    ((Zpos m1 * 2 ^ 24) / Zpos m2, (e1 - e2 - 24)%Z,
     new_location (Zpos m2) ((Zpos m1 * 2 ^ 24) mod Zpos m2))%Z.
Proof.
  intros H1 H2 He. unfold SFdiv_core_binary. cbn [Zdigits2]. rewrite H1, H2, f32_fexp.
  replace (Z.min (Z.max (24 + e1 - (24 + e2) - 24) (-149)) (e1 - e2))
    with (e1 - e2 - 24)%Z by lia.
  replace (e1 - e2 - (e1 - e2 - 24))%Z with 24%Z by lia.
  cbv beta iota. rewrite Z.shiftl_mul_pow2 by lia. rewrite Z_div_eucl_pair. reflexivity.
Qed.

(** The quotient of two [f32] with 24-digit mantissas and moderate
    exponents, the first not larger than the second, is in [(0, 1]]; its
    exponent is at least [e1 - e2 - 24]. *)
Lemma f32_div_le_1 (m1 m2 : positive) (e1 e2 : Z) :
  (2 ^ 23 <= Zpos m1 < 2 ^ 24)%Z -> (2 ^ 23 <= Zpos m2 < 2 ^ 24)%Z ->
  (-23 <= e1 <= 41)%Z -> (-23 <= e2 <= 41)%Z ->
  (Zpos m1 * 2 ^ (e1 + 23) <= Zpos m2 * 2 ^ (e2 + 23))%Z ->
  f32_pos_le (f32_div (S754_finite false m1 e1) (S754_finite false m2 e2)) 1 /\
  forall m e, f32_div (S754_finite false m1 e1) (S754_finite false m2 e2) =
                S754_finite false m e -> (e1 - e2 - 24 <= e)%Z.
Proof.
  intros Hm1 Hm2 He1 He2 Hv.
  assert (Hd1 : Zpos (digits2_pos m1) = 24%Z) by (apply digits2_pos_unique; simpl; lia).
  assert (Hd2 : Zpos (digits2_pos m2) = 24%Z) by (apply digits2_pos_unique; simpl; lia).
  assert (He12 : (e1 <= e2)%Z).
  { destruct (Z.le_gt_cases e1 e2) as [|Hgt]; [assumption|exfalso].
    assert (Hp : (2 ^ (e1 + 23) = 2 ^ (e2 + 23) * 2 ^ (e1 - e2))%Z)
      by (rewrite <- Z.pow_add_r by lia; f_equal; lia).
    assert (Hp2 : (2 <= 2 ^ (e1 - e2))%Z).
    { replace 2%Z with (2 ^ 1)%Z at 1 by reflexivity. apply Z.pow_le_mono_r; lia. }
    assert (0 < 2 ^ (e2 + 23))%Z by (apply Z.pow_pos_nonneg; lia).
    assert (H24 : (2 ^ 24 = 2 ^ 23 * 2)%Z) by reflexivity. nia. }
  unfold f32_div, SFdiv. rewrite div_core_24 by lia. cbv beta iota.
  set (N := (Zpos m1 * 2 ^ 24)%Z).
  assert (Hq : (2 ^ 23 <= N / Zpos m2)%Z).
  { apply Z.div_le_lower_bound; [lia|]. unfold N.
    assert (H47 : (2 ^ 24 * 2 ^ 23 = 2 ^ 23 * 2 ^ 24)%Z) by reflexivity. nia. }
  pose proof (new_location_approx N (Zpos m2) ltac:(lia) ltac:(unfold N; lia)) as Ha.
  destruct (N / Zpos m2)%Z as [|q|q] eqn:Eq; try lia.
  split.
  - apply (round_aux_le q (e1 - e2 - 24) _ N (Zpos m2) 1 Ha); [lia|simpl; lia|].
    replace (- (e1 - e2 - 24))%Z with ((e2 - e1) + 24)%Z by lia.
    rewrite Z.pow_add_r by lia. unfold N.
    assert (Hp : (2 ^ (e2 + 23) = 2 ^ (e1 + 23) * 2 ^ (e2 - e1))%Z)
      by (rewrite <- Z.pow_add_r by lia; f_equal; lia).
    rewrite Hp in Hv.
    assert (0 < 2 ^ (e1 + 23))%Z by (apply Z.pow_pos_nonneg; lia).
    assert (0 < 2 ^ 24)%Z by reflexivity.
    assert (Hm : (Zpos m1 <= Zpos m2 * 2 ^ (e2 - e1))%Z) by nia.
    nia.
  - intros m e E.
    unfold binary_round_aux in E.
    destruct (shr_fexp_pos q (e1 - e2 - 24) (new_location (Zpos m2) (N mod Zpos m2))
                ltac:(lia)) as [H1 H1e].
    destruct (shr_fexp f32_prec f32_emax (Zpos q) (e1 - e2 - 24)
                (new_location (Zpos m2) (N mod Zpos m2))) as [mrs' e'] eqn:E1.
    cbn [fst snd] in H1, H1e.
    pose proof (round_nearest_even_ge (shr_m mrs') (loc_of_shr_record mrs')) as Hr.
    destruct (round_nearest_even (shr_m mrs') (loc_of_shr_record mrs')) as [|r|r] eqn:Er;
      try lia.
    destruct (shr_fexp_pos r e' loc_Exact ltac:(lia)) as [_ H2e].
    destruct (shr_fexp f32_prec f32_emax (Zpos r) e' loc_Exact) as [mrs'' e''] eqn:E2.
    cbn [fst snd] in H2e.
    destruct (shr_m mrs''); try discriminate.
    destruct (e'' <=? f32_emax - f32_prec)%Z; inversion E; subst. lia.
Qed.

Lemma f32_100_eq : f32_100 = S754_finite false 13107200 (-17).
Proof. reflexivity. Qed.

(** Multiplying a value of [(0, 1]] (with a not too small exponent) by
    [100.0] gives a value of [(0, 100]]. *)
Lemma f32_percent_le (mv : positive) (ev : Z) :
  f32_pos_le (S754_finite false mv ev) 1 -> (-132 <= ev)%Z ->
  f32_pos_le (f32_mul (S754_finite false mv ev) f32_100) 100.
Proof.
  intros Hv Hev. rewrite f32_100_eq. unfold f32_mul, SFmul. cbn [xorb].
  assert (Hb : (ev <= 0)%Z /\ (Zpos mv <= 2 ^ (- ev))%Z).
  { unfold f32_pos_le in Hv.
    case_eq (0 <=? ev)%Z; intro H0; rewrite H0 in Hv;
      [apply Z.leb_le in H0|apply Z.leb_gt in H0].
    - destruct (Z.eq_dec ev 0) as [->|Hne]; [simpl in *; lia|].
      assert (H2 : (2 <= 2 ^ ev)%Z)
        by (change 2%Z with (2 ^ 1)%Z at 1; apply Z.pow_le_mono_r; lia).
      exfalso. nia.
    - split; lia. }
  destruct Hb as [Hev0 Hmv].
  apply (round_aux_le (mv * 13107200) (ev + -17) loc_Exact (Zpos (mv * 13107200)) 1 100
           (exact_approx (Zpos (mv * 13107200)) ltac:(lia))); [lia|simpl; lia|].
  replace (- (ev + -17))%Z with (- ev + 17)%Z by lia.
  rewrite Z.pow_add_r by lia. rewrite Pos2Z.inj_mul.
  assert (H17 : (2 ^ 17 = 131072)%Z) by reflexivity. rewrite H17. lia.
Qed.

(** What [fraction] returns for a record with at least one element seen:
    a value of [(0, 1]], whose exponent is at least [-88]. *)
Lemma fraction_value (r : ProgressRecord) (v : f32) :
  (1 <= num_done r)%N -> fraction r = Ok (Some v) ->
  f32_pos_le v 1 /\ exists m e, v = S754_finite false m e /\ (-88 <= e)%Z.
Proof.
  intros H1 Hf. unfold fraction in Hf. destruct (is_size_known r); [|discriminate].
  destruct (usize_add (fst (size_hint r)) (num_done r)) as [tot|msg] eqn:Ea;
    cbn [rbind] in Hf; [|discriminate].
  apply usize_add_ok in Ea as [-> Hle].
  injection Hf as <-.
  destruct (num_done r) as [|a] eqn:Ed; [lia|].
  destruct (fst (size_hint r) + N.pos a)%N as [|t] eqn:Et0; [lia|].
  assert (Hat : (Zpos a <= Zpos t)%Z) by lia.
  assert (Ht : (Zpos t < 2 ^ 64)%Z)
    by (assert (Hu : usize_max = 18446744073709551615%N) by reflexivity;
        rewrite Hu in Hle; change (2 ^ 64)%Z with 18446744073709551616%Z; lia).
  cbn [Z.of_N].
  assert (Ha64 : (Zpos a < 2 ^ 64)%Z) by lia.
  pose proof (digits2_pos_le a 64 Ha64) as Hda.
  pose proof (digits2_pos_le t 64 Ht) as Hdt.
  destruct (f32_of_Z_spec a ltac:(lia)) as (ma & ea & Ea & Hma & Hea & Hva).
  destruct (f32_of_Z_spec t ltac:(lia)) as (mt & et & Et & Hmt & Het & Hvt).
  rewrite Ea, Et.
  destruct (f32_div_le_1 ma mt ea et Hma Hmt ltac:(lia) ltac:(lia)) as [Hle1 Hexp].
  { rewrite Hva, Hvt. apply f32_val_mono. exact Hat. }
  split; [exact Hle1|].
  destruct (f32_div (S754_finite false ma ea) (S754_finite false mt et))
    as [sz|si| |[] m e]; try contradiction.
  exists m, e. split; [reflexivity|].
  specialize (Hexp m e eq_refl). lia.
Qed.

Lemma percent_value (r : ProgressRecord) (p : f32) :
  (1 <= num_done r)%N -> percent r = Ok (Some p) -> f32_pos_le p 100.
Proof.
  intros H1. unfold percent.
  destruct (fraction r) as [o|msg] eqn:Ef; cbn [rbind]; [|discriminate].
  destruct o as [f|]; [|discriminate]. intro H. injection H as <-.
  destruct (fraction_value r f H1 Ef) as [Hf (m & e & -> & He)].
  apply f32_percent_le; [exact Hf|lia].
Qed.

(** ** Runs of the adapter *)

Lemma run_app {S A : Type} (nx : S -> option A * S) sh (l1 l2 : list Timespec) :
  forall (st : ProgressRecorderIter),
  run nx sh st (l1 ++ l2) =
  p <- run nx sh st l1 ;;
  let (os1, st1) := p in
  q <- run nx sh st1 l2 ;;
  let (os2, st2) := q in
  Ok (os1 ++ os2, st2).
Proof.
  induction l1 as [|now rest IH]; intro st.
  - simpl. destruct (run nx sh st l2) as [[os st2]|]; reflexivity.
  - simpl. destruct (next nx sh st now) as [[o st1]|]; simpl; [|reflexivity].
    rewrite IH. destruct (run nx sh st1 rest) as [[os1 st1']|]; simpl; [|reflexivity].
    destruct (run nx sh st1' l2) as [[os2 st2]|]; reflexivity.
Qed.

Lemma repeat_run_ok {A : Type} (x : A) (k : nat) :
  forall c, (c + N.of_nat k <= usize_max)%N ->
  exists outs,
  run (repeat_next x) repeat_size_hint
      {| iter := tt; count := c; started_iterating := t_epoch |} (repeat t_epoch k) =
  Ok (outs, {| iter := tt; count := (c + N.of_nat k)%N; started_iterating := t_epoch |}).
Proof.
  induction k as [|k IH]; intros c Hc.
  - exists []. simpl. rewrite N.add_0_r. reflexivity.
  - destruct (IH (c + 1)%N ltac:(lia)) as (outs & Hr).
    rewrite Nat2N.inj_succ.
    replace (c + N.succ (N.of_nat k))%N with (c + 1 + N.of_nat k)%N by lia.
    cbn [repeat run]. unfold next at 1. cbn [repeat_next iter].
    unfold generate_record. cbn [count started_iterating iter].
    unfold usize_add at 1.
    destruct (N.leb_spec (c + 1) usize_max) as [Hle|Hgt]; [|lia].
    simpl. rewrite Hr.
    eexists. simpl. reflexivity.
Qed.

(** Pulling [usize::MAX + 1] elements out of [repeat(x).progress()]: the
    last pull overflows the counter. *)
Lemma repeat_overflow_panics {A : Type} (x : A) :
  is_panic (run (repeat_next x) repeat_size_hint (new tt t_epoch)
                (repeat t_epoch (N.to_nat usize_max + 1))) = true.
Proof.
  rewrite repeat_app, run_app.
  destruct (repeat_run_ok x (N.to_nat usize_max) 0 ltac:(rewrite N2Nat.id; lia)) as (outs & Hr).
  unfold new. rewrite Hr. cbn [rbind]. rewrite N2Nat.id, N.add_0_l.
  reflexivity.
Qed.

Lemma slice_fused {A : Type} : fused (@slice_next A).
Proof. intros [|x l]; simpl; [reflexivity|discriminate]. Qed.


(** ** Records, slices and [count] *)

Lemma records_nth {A : Type} (outs : list (option (ProgressRecord * A))) :
  forall n r, nth_error (records outs) n = Some r ->
  exists i a, nth_error outs i = Some (Some (r, a)).
Proof.
  induction outs as [|o outs IH]; intros n r H; [destruct n; discriminate|].
  destruct o as [[r0 a0]|]; simpl in H.
  - destruct n as [|n]; simpl in H.
    + inversion H; subst. exists 0%nat, a0. reflexivity.
    + destruct (IH n r H) as (i & a & Hi). exists (Datatypes.S i), a. exact Hi.
  - destruct (IH n r H) as (i & a & Hi). exists (Datatypes.S i), a. exact Hi.
Qed.

Lemma run_size_hints {S A : Type} (nx : S -> option A * S) sh (clock : list Timespec) :
  forall (st st' : ProgressRecorderIter) outs,
  run nx sh st clock = Ok (outs, st') ->
  forall i r a, nth_error outs i = Some (Some (r, a)) ->
  size_hint r = sh (snd (src_run nx (iter st) (Datatypes.S i))).
Proof.
  induction clock as [|now rest IH]; intros st st' outs H.
  - simpl in H. inversion H; subst. intros [|i]; discriminate.
  - apply run_cons in H as (o & st1 & os & Hnext & Hrun & Houts). simpl in Houts, Hrun.
    subst outs. intros [|i] r a Hi; simpl in Hi.
    + inversion Hi; subst. apply next_some_inv in Hnext as (Hx & _ & _ & _ & _ & _ & Hs).
      simpl. rewrite Hx. simpl. exact Hs.
    + rewrite (IH _ _ _ Hrun i r a Hi).
      apply next_ok_cases in Hnext as [Ho _].
      assert (Hx : exists o', nx (iter st) = (o', iter st1))
        by (destruct o as [[r0 a0]|]; destruct Ho as [Hx _]; eauto).
      destruct Hx as [o' Hx].
      change (src_run nx (iter st) (Datatypes.S (Datatypes.S i)))
        with (let (o, s1) := nx (iter st) in
              let (os, s2) := src_run nx s1 (Datatypes.S i) in (o :: os, s2)).
      rewrite Hx. destruct (src_run nx (iter st1) (Datatypes.S i)). reflexivity.
Qed.

Lemma run_nums {S A : Type} (nx : S -> option A * S) sh (clock : list Timespec)
  (s0 : S) (t0 : Timespec) outs st :
  run nx sh (new s0 t0) clock = Ok (outs, st) ->
  forall r, In r (records outs) -> (1 <= num r)%N.
Proof.
  intros H r Hr. apply run_counts in H as (_ & _ & Hn). simpl in Hn.
  apply In_nth_error in Hr as [n Hr]. apply Hn in Hr. lia.
Qed.

Lemma src_run_slice {A : Type} (k : nat) :
  forall l : list A, snd (src_run (@slice_next A) l k) = skipn k l.
Proof.
  induction k as [|k IH]; intro l; [reflexivity|].
  destruct l as [|x l].
  - simpl. specialize (IH []). destruct (src_run slice_next [] k). simpl in *.
    rewrite IH. destruct k; reflexivity.
  - simpl. specialize (IH l). destruct (src_run slice_next l k). simpl in *. exact IH.
Qed.

Lemma src_run_slice_fst {A : Type} (k : nat) :
  forall (l : list A) i, (i < k)%nat ->
  nth_error (fst (src_run (@slice_next A) l k)) i = Some (nth_error l i).
Proof.
  induction k as [|k IH]; intros l i Hi; [lia|].
  cbn [src_run]. destruct (slice_next l) as [o l1] eqn:El.
  pose proof (IH l1) as IH1.
  destruct (src_run slice_next l1 k) as [os s2] eqn:Er. cbn [fst] in IH1 |- *.
  destruct l as [|x l]; cbn [slice_next] in El; injection El as <- <-.
  - destruct i as [|i]; [reflexivity|]. cbn [nth_error].
    rewrite (IH1 i ltac:(lia)). destruct i; reflexivity.
  - destruct i as [|i]; [reflexivity|]. cbn [nth_error]. apply IH1. lia.
Qed.

Lemma slice_run_spec {A : Type} (clock : list Timespec) :
  forall (st st' : @ProgressRecorderIter (list A)) outs,
  run slice_next slice_size_hint st clock = Ok (outs, st') ->
  forall i r a, nth_error outs i = Some (Some (r, a)) ->
  nth_error (iter st) i = Some a /\ num r = (count st + N.of_nat (Datatypes.S i))%N /\
  size_hint r = slice_size_hint (skipn (Datatypes.S i) (iter st)).
Proof.
  induction clock as [|now rest IH]; intros st st' outs H.
  - simpl in H. inversion H; subst. intros [|i]; discriminate.
  - apply run_cons in H as (o & st1 & os & Hnext & Hrun & Houts). simpl in Houts, Hrun.
    subst outs. intros [|i] r a Hi; simpl in Hi.
    + inversion Hi; subst.
      apply next_some_inv in Hnext as (Hx & Hc & _ & Hn & _ & _ & Hs).
      destruct (iter st) as [|x l] eqn:Ei; simpl in Hx; inversion Hx; subst.
      simpl. rewrite Hn, Hc, Hs. repeat split; lia || reflexivity.
    + destruct (IH _ _ _ Hrun i r a Hi) as (Ha & Hn & Hs).
      apply next_ok_cases in Hnext as [Ho _].
      destruct o as [[r0 a0]|].
      * destruct Ho as (Hx & Hc & _).
        destruct (iter st) as [|x l] eqn:Ei; simpl in Hx; inversion Hx; subst.
        simpl. repeat split; [exact Ha| |exact Hs].
        rewrite Hn, Hc. lia.
      * destruct Ho as (Hx & Hc).
        destruct (iter st) as [|x l] eqn:Ei; simpl in Hx; [|discriminate].
        injection Hx as Hx'. rewrite <- Hx' in Ha. destruct i; discriminate.
Qed.

Lemma iter_count_slice {A : Type} (l : list A) :
  forall fuel acc, (List.length l < fuel)%nat ->
  (acc + N.of_nat (List.length l) <= usize_max)%N ->
  iter_count (@slice_next A) fuel l acc = Some (Ok (acc + N.of_nat (List.length l))%N).
Proof.
  induction l as [|x l IH]; intros [|fuel] acc Hf Hb; simpl in *; try lia.
  - rewrite N.add_0_r. reflexivity.
  - unfold usize_add. destruct (N.leb_spec (acc + 1) usize_max) as [Hle|Hgt]; [|lia].
    rewrite IH by lia. f_equal. f_equal. lia.
Qed.

(** ** Output of [print_every] *)

Lemma print_every_ok (r : ProgressRecord) (n : N) (msg : string) (c : nat) :
  num r = N.of_nat (Datatypes.S c) -> (0 < n)%N ->
  print_every r n msg = Ok (if (c mod N.to_nat n =? 0)%nat then [msg] else []).
Proof.
  intros Hr Hn. unfold print_every, should_print_every_items, usize_sub, usize_rem, num_done.
  rewrite Hr. destruct (N.leb_spec 1 (N.of_nat (Datatypes.S c))) as [_|Hlt]; [|lia].
  cbn [rbind]. destruct (N.eqb_spec n 0) as [H0|_]; [lia|]. cbn [rbind].
  replace (N.of_nat (Datatypes.S c) - 1)%N with (N.of_nat c) by lia.
  rewrite <- (N2Nat.id n) at 1. rewrite <- Nat2N.inj_mod.
  destruct (c mod N.to_nat n)%nat; reflexivity.
Qed.

Lemma print_loop_gen (n : N) (msg : string) (Hn : (0 < n)%N) (rs : list ProgressRecord) :
  forall c, (forall i r, nth_error rs i = Some r -> num r = N.of_nat (c + Datatypes.S i)) ->
  print_every_loop rs n msg =
    Ok (map (fun _ => msg) (filter (fun i => (i mod N.to_nat n =? 0)%nat) (seq c (List.length rs)))).
Proof.
  induction rs as [|r rs IH]; intros c H; [reflexivity|].
  cbn [print_every_loop].
  rewrite (print_every_ok r n msg c);
    [| rewrite (H 0%nat r eq_refl); f_equal; lia | exact Hn].
  cbn [rbind].
  rewrite (IH (Datatypes.S c)).
  - cbn [rbind List.length seq filter]. destruct (c mod N.to_nat n =? 0)%nat; reflexivity.
  - intros i r' Hi. rewrite (H (Datatypes.S i) r' Hi). f_equal. lia.
Qed.

Lemma map_const_repeat {T U : Type} (x : U) (l : list T) :
  map (fun _ => x) l = repeat x (List.length l).
Proof. induction l as [|y l IH]; simpl; [reflexivity|]. rewrite IH. reflexivity. Qed.

Lemma div_step (k m : nat) :
  (0 < m)%nat ->
  ((k + m) / m = (k + m - 1) / m + (if k mod m =? 0 then 1 else 0))%nat.
Proof.
  intro Hm.
  pose proof (Nat.div_mod (k + m - 1) m ltac:(lia)) as Hd.
  pose proof (Nat.mod_upper_bound (k + m - 1) m ltac:(lia)) as Hb.
  set (q := ((k + m - 1) / m)%nat) in *. set (rm := ((k + m - 1) mod m)%nat) in *.
  destruct (Nat.eq_dec rm (m - 1)) as [He|Hne].
  - assert (Hk : (k mod m = 0)%nat).
    { symmetry. apply (Nat.mod_unique k m q 0); lia. }
    rewrite Hk. simpl.
    symmetry. rewrite Nat.add_1_r. apply (Nat.div_unique (k + m) m (Datatypes.S q) 0); lia.
  - assert (Hq : (1 <= q)%nat).
    { destruct q as [|q']; [|lia]. exfalso. lia. }
    assert (Hk : (k mod m = Datatypes.S rm)%nat).
    { symmetry. apply (Nat.mod_unique k m (q - 1) (Datatypes.S rm)); [lia|].
      replace (m * (q - 1))%nat with (m * q - m)%nat by (rewrite Nat.mul_sub_distr_l; lia).
      assert (m <= m * q)%nat by nia. lia. }
    rewrite Hk. simpl. rewrite Nat.add_0_r.
    symmetry. apply (Nat.div_unique (k + m) m q (Datatypes.S rm)); lia.
Qed.

Lemma count_multiples (m : nat) (Hm : (0 < m)%nat) (k : nat) :
  List.length (filter (fun i => (i mod m =? 0)%nat) (seq 0 k)) = ((k + m - 1) / m)%nat.
Proof.
  induction k as [|k IH].
  - simpl. symmetry. apply Nat.div_small. lia.
  - rewrite seq_S, filter_app, length_app, IH. simpl.
    replace (k + m - 0)%nat with (k + m)%nat by lia.
    rewrite (div_step k m Hm).
    destruct (k mod m =? 0)%nat; simpl; lia.
Qed.

(** ** [f32] results of [fraction] and [rate] *)

Lemma f32_one_eq : f32_one = S754_finite false 8388608 (-23).
Proof. reflexivity. Qed.

Lemma f32_div_self (p : positive) :
  (Zpos p < 2 ^ 64)%Z -> f32_div (f32_of_Z (Zpos p)) (f32_of_Z (Zpos p)) = f32_one.
Proof.
  intro Hp. pose proof (digits2_pos_le p 64 Hp) as Hd.
  destruct (f32_of_Z_spec p ltac:(lia)) as (m & e & E & Hm & _ & _).
  rewrite E. unfold f32_div, SFdiv.
  assert (Hdm : Zpos (digits2_pos m) = 24%Z) by (apply digits2_pos_unique; simpl; lia).
  rewrite div_core_24 by lia.
  rewrite (Z.mul_comm (Zpos m)), Z.div_mul, Z.mod_mul by lia.
  replace (e - e - 24)%Z with (-24)%Z by lia.
  assert (Hl : new_location (Zpos m) 0 = loc_Exact)
    by (unfold new_location; destruct (Z.even (Zpos m)); reflexivity).
  rewrite Hl. reflexivity.
Qed.

Lemma f32_div_pos (m1 m2 : positive) (e1 e2 : Z) :
  (2 ^ 23 <= Zpos m1 < 2 ^ 24)%Z -> (2 ^ 23 <= Zpos m2 < 2 ^ 24)%Z -> (-125 <= e1 - e2)%Z ->
  f32_div (S754_finite false m1 e1) (S754_finite false m2 e2) = f32_infinity \/
  exists m e, f32_div (S754_finite false m1 e1) (S754_finite false m2 e2) = S754_finite false m e.
Proof.
  intros Hm1 Hm2 He.
  assert (Hd1 : Zpos (digits2_pos m1) = 24%Z) by (apply digits2_pos_unique; simpl; lia).
  assert (Hd2 : Zpos (digits2_pos m2) = 24%Z) by (apply digits2_pos_unique; simpl; lia).
  unfold f32_div, SFdiv. rewrite div_core_24 by lia. cbv beta iota.
  assert (Hq : (2 ^ 23 <= Zpos m1 * 2 ^ 24 / Zpos m2)%Z).
  { apply Z.div_le_lower_bound; [lia|].
    assert (H47 : (2 ^ 24 * 2 ^ 23 = 2 ^ 23 * 2 ^ 24)%Z) by reflexivity. nia. }
  destruct (Zpos m1 * 2 ^ 24 / Zpos m2)%Z as [|q|q]; try lia.
  destruct (binary_round_aux_pos q (e1 - e2 - 24)
              (new_location (Zpos m2) ((Zpos m1 * 2 ^ 24) mod Zpos m2)) ltac:(lia))
    as [(m & e & Hf)|Hi].
  - right. exists m, e. exact Hf.
  - left. exact Hi.
Qed.

Lemma rate_pos (r : ProgressRecord) :
  (1 <= num_done r <= usize_max)%N ->
  (0 <= num_seconds (duration_since_start r) < 2 ^ 64)%Z ->
  rate r = f32_infinity \/ exists m e, rate r = S754_finite false m e.
Proof.
  intros Hn Hs. unfold rate.
  destruct (num_done r) as [|a] eqn:Ea; [lia|].
  assert (Ha : (Zpos a < 2 ^ 64)%Z)
    by (assert (Hu : usize_max = 18446744073709551615%N) by reflexivity;
        rewrite Hu in Hn; change (2 ^ 64)%Z with 18446744073709551616%Z; lia).
  pose proof (digits2_pos_le a 64 Ha) as Hda.
  destruct (f32_of_Z_spec a ltac:(lia)) as (ma & ea & Ea' & Hma & Hea & _).
  cbn [Z.of_N]. rewrite Ea'.
  destruct (num_seconds (duration_since_start r)) as [|s|s] eqn:Es; [| |lia].
  - left. rewrite <- Ea'. apply f32_div_by_zero. apply f32_of_Z_pos.
  - pose proof (digits2_pos_le s 64 (proj2 Hs)) as Hds.
    destruct (f32_of_Z_spec s ltac:(lia)) as (ms & es & Es' & Hms & Hes & _).
    rewrite Es'. apply f32_div_pos; lia.
Qed.

Lemma num_seconds_range (t t0 : Timespec) (d : Duration) :
  valid_timespec t -> valid_timespec t0 -> (ts_ns t0 <= ts_ns t)%Z ->
  Timespec_sub t t0 = Ok d -> (0 <= num_seconds d < 2 ^ 64)%Z.
Proof.
  intros [Hs1 Hn1] [Hs0 Hn0] Hle H.
  apply Timespec_sub_ns in H as [Hd Hb].
  rewrite num_seconds_quot by exact Hb. rewrite Hd.
  rewrite Z.quot_div_nonneg by (unfold NANOS_PER_SEC; lia).
  unfold ts_ns, NANOS_PER_SEC, i64_min, i64_max in *.
  change (2 ^ 63)%Z with 9223372036854775808%Z in *.
  change (2 ^ 64)%Z with 18446744073709551616%Z.
  split; [apply Z.div_pos; lia|].
  apply Z.div_lt_upper_bound; lia.
Qed.

Lemma string_app_assoc (x y z : string) : ((x ++ y) ++ z)%string = (x ++ (y ++ z))%string.
Proof. induction x as [|c x IH]; simpl; [reflexivity|]. rewrite IH. reflexivity. Qed.

Lemma run_nums_bound {S A : Type} (nx : S -> option A * S) sh (clock : list Timespec) :
  forall (st st' : ProgressRecorderIter) outs,
  run nx sh st clock = Ok (outs, st') ->
  forall r, In r (records outs) -> (num r <= usize_max)%N.
Proof.
  induction clock as [|now rest IH]; intros st st' outs H.
  - simpl in H. inversion H; subst. intros r [].
  - apply run_cons in H as (o & st1 & os & Hnext & Hrun & Houts). simpl in Houts, Hrun.
    subst outs. intros r Hr.
    destruct o as [[r0 a0]|]; simpl in Hr.
    + destruct Hr as [<-|Hr].
      * apply next_some_inv in Hnext as (_ & Hc & Hle & Hn & _). lia.
      * exact (IH _ _ _ Hrun r Hr).
    + exact (IH _ _ _ Hrun r Hr).
Qed.

(** * Claims *)

(** C1. For an adapter built by [ProgressRecorderIter::new] (count 0), the
    record of the n-th successful pull has [num_done() == n] (the element at
    index [n] of the yielded records has [n + 1]), and the adapter's count
    equals the number of successful pulls. On a pull where the source
    reports exhaustion ([self.iter.next()] is [None]), [next()] returns
    normally with [None] (no record is produced), and the adapter keeps its
    count and start time, only the source's state advancing; conversely,
    [next()] returns [None] only when the source did, and then leaves the
    count unchanged. *)
Theorem C1_nth_pull_count {S A : Type} (nx : S -> option A * S) (sh : S -> N * option N)
  (s0 : S) (t0 : Timespec) (clock : list Timespec) outs st :
  run nx sh (new s0 t0) clock = Ok (outs, st) ->
  (forall n r, nth_error (records outs) n = Some r -> num_done r = N.of_nat (Datatypes.S n)) /\
  count st = N.of_nat (List.length (records outs)) /\
  (forall (st1 : ProgressRecorderIter) now s',
     nx (iter st1) = (None, s') ->
     next nx sh st1 now =
       Ok (None, {| iter := s'; count := count st1;
                    started_iterating := started_iterating st1 |})) /\
  (forall (st1 st2 : ProgressRecorderIter) now,
     next nx sh st1 now = Ok (None, st2) ->
     fst (nx (iter st1)) = None /\ count st2 = count st1).
Proof.
  intro H. apply run_counts in H as (Hc & _ & Hn). simpl in Hc, Hn.
  split; [|split; [|split]].
  - intros n r Hr. apply Hn in Hr. unfold num_done. lia.
  - exact Hc.
  - intros st1 now s' E. unfold next. rewrite E. reflexivity.
  - intros st1 st2 now Hnext. apply next_none_inv in Hnext as (Hx & Hc2 & _).
    rewrite Hx. split; [reflexivity|exact Hc2].
Qed.

Lemma C1_witness :
  exists outs st,
  run slice_next slice_size_hint (new [7; 8; 9] t_epoch)
      [at_sec 1; at_sec 2; at_sec 3; at_sec 4] = Ok (outs, st) /\
  ((forall n r, nth_error (records outs) n = Some r -> num_done r = N.of_nat (Datatypes.S n)) /\
   count st = N.of_nat (List.length (records outs)) /\
   (forall (st1 : ProgressRecorderIter) now s',
      (@slice_next nat) (iter st1) = (None, s') ->
      next slice_next slice_size_hint st1 now =
        Ok (None, {| iter := s'; count := count st1;
                     started_iterating := started_iterating st1 |})) /\
   (forall (st1 st2 : ProgressRecorderIter) now,
      next (@slice_next nat) slice_size_hint st1 now = Ok (None, st2) ->
      fst (slice_next (iter st1)) = None /\ count st2 = count st1)).
Proof.
  eexists. eexists. split.
  - reflexivity.
  - apply (C1_nth_pull_count slice_next slice_size_hint [7; 8; 9] t_epoch
             [at_sec 1; at_sec 2; at_sec 3; at_sec 4]).
    reflexivity.
Defined.

(** C3 (as stated: sticky exhaustion for every source). Refuted: the adapter
    keeps no exhaustion flag, so over a source that yields again after a
    [None] (here [flaky_next], like [mpsc::TryIter]) a pull returns [None]
    and the next pull yields an element and increments the count. *)
Lemma C3_counterexample :
  exists st1 st2 r,
  next flaky_next flaky_size_hint (new false t_epoch) t_epoch = Ok (None, st1) /\
  next flaky_next flaky_size_hint st1 (at_sec 1) = Ok (Some (r, tt), st2) /\
  count st1 = 0%N /\ count st2 = 1%N.
Proof.
  do 3 eexists. split; [reflexivity|]. split; [reflexivity|]. split; reflexivity.
Qed.

(** C3 (amended). If the wrapped iterator is fused, then once a pull of the
    adapter returns [None], every later pull returns [None], none panics,
    and the count never changes again. *)
Theorem C3_sticky_if_fused {S A : Type} (nx : S -> option A * S) (sh : S -> N * option N)
  (Hf : fused nx) (st st1 : ProgressRecorderIter) (now : Timespec) :
  next nx sh st now = Ok (None, st1) ->
  forall clock : list Timespec,
  exists st2, run nx sh st1 clock = Ok (repeat None (List.length clock), st2) /\
              count st2 = count st.
Proof.
  intros H clock. apply next_none_inv in H as (Hx & Hc & _).
  assert (Hn : fst (nx (iter st1)) = None).
  { pose proof (Hf (iter st)) as Hf'. rewrite Hx in Hf'. simpl in Hf'. apply Hf'. reflexivity. }
  destruct (run_exhausted nx sh Hf clock st1 Hn) as (st2 & Hr & Hc2).
  exists st2. split; [exact Hr|congruence].
Qed.

Lemma C3_witness :
  fused (@slice_next nat) /\
  next slice_next slice_size_hint (new (@nil nat) t_epoch) t_epoch =
    Ok (None, new (@nil nat) t_epoch) /\
  exists st2,
  run slice_next slice_size_hint (new (@nil nat) t_epoch) [at_sec 1; at_sec 2] =
    Ok (repeat None 2, st2) /\ count st2 = count (new (@nil nat) t_epoch).
Proof.
  split; [apply slice_fused|]. split; [reflexivity|].
  exact (C3_sticky_if_fused slice_next slice_size_hint slice_fused
           (new (@nil nat) t_epoch) (new (@nil nat) t_epoch) t_epoch eq_refl
           [at_sec 1; at_sec 2]).
Defined.

(** C4 (as stated). Refuted: the format string of [message] has no
    trailing " seconds"; the crate's own test expects
    "Have seen 1 items and been iterating for 0". *)
Lemma C4_counterexample :
  message {| num := 1; iterating_for := {| secs := 0; nanos := 500000000 |};
             size_hint := (4%N, Some 4%N) |}
  <> "Have seen 1 items and been iterating for 0 seconds"%string.
Proof. vm_compute. discriminate. Qed.

(** C4 (amended). For a record whose duration is [now - started] (a [Tm]
    subtraction), [message()] is "Have seen {count} items and been
    iterating for {s}" with no unit after [s], where [s] is the elapsed time
    in whole seconds truncated towards zero (floored when the elapsed time
    is non-negative). *)
Theorem C4_message_format (t1 t0 : Timespec) (r : ProgressRecord) :
  Timespec_sub t1 t0 = Ok (iterating_for r) ->
  message r =
    ("Have seen " ++ fmt_usize (num_done r) ++ " items and been iterating for "
     ++ fmt_i64 (Z.quot (ts_ns t1 - ts_ns t0) NANOS_PER_SEC))%string /\
  ((0 <= ts_ns t1 - ts_ns t0)%Z ->
   Z.quot (ts_ns t1 - ts_ns t0) NANOS_PER_SEC = ((ts_ns t1 - ts_ns t0) / NANOS_PER_SEC)%Z).
Proof.
  intro H. apply Timespec_sub_ns in H as (Hd & Hb). split.
  - unfold message. rewrite num_seconds_quot by exact Hb. rewrite Hd. reflexivity.
  - intro Hnn. apply Z.quot_div_nonneg; [exact Hnn|unfold NANOS_PER_SEC; lia].
Qed.

Lemma C4_witness :
  Timespec_sub {| sec := 1; nsec := 750000000 |} {| sec := 0; nsec := 250000000 |} =
    Ok {| secs := 1; nanos := 500000000 |} /\
  (message {| num := 3; iterating_for := {| secs := 1; nanos := 500000000 |};
              size_hint := (2%N, Some 2%N) |} =
    ("Have seen " ++ fmt_usize 3 ++ " items and been iterating for "
     ++ fmt_i64 (Z.quot (ts_ns {| sec := 1; nsec := 750000000 |}
                        - ts_ns {| sec := 0; nsec := 250000000 |}) NANOS_PER_SEC))%string /\
   ((0 <= ts_ns {| sec := 1; nsec := 750000000 |} - ts_ns {| sec := 0; nsec := 250000000 |})%Z ->
    Z.quot (ts_ns {| sec := 1; nsec := 750000000 |} - ts_ns {| sec := 0; nsec := 250000000 |})
           NANOS_PER_SEC =
    ((ts_ns {| sec := 1; nsec := 750000000 |} - ts_ns {| sec := 0; nsec := 250000000 |})
       / NANOS_PER_SEC)%Z)).
Proof.
  split; [reflexivity|].
  exact (C4_message_format {| sec := 1; nsec := 750000000 |} {| sec := 0; nsec := 250000000 |}
           {| num := 3; iterating_for := {| secs := 1; nanos := 500000000 |};
              size_hint := (2%N, Some 2%N) |} eq_refl).
Defined.

(** C5 (as stated). Refuted for an infinite source: pulling
    [usize::MAX + 1] elements through [repeat(0).progress()] panics (the
    counter overflows), while [repeat(0)] itself yields them all. *)
Lemma C5_counterexample :
  ~ (exists outs st,
     run (repeat_next 0%N) repeat_size_hint (new tt t_epoch)
         (repeat t_epoch (N.to_nat usize_max + 1)) = Ok (outs, st) /\
     map (option_map snd) outs =
       fst (src_run (repeat_next 0%N) tt (N.to_nat usize_max + 1))).
Proof.
  intros (outs & st & H & _).
  pose proof (repeat_overflow_panics 0%N) as Hp. rewrite H in Hp. discriminate.
Qed.

(** C5 (amended). For every source and every sequence of pulls on which
    the adapter does not panic, the elements it yields (the second
    components) are, pull by pull, exactly what the unwrapped source yields
    over the same number of pulls, [None]s included, and the source is left
    in the same state. The adapter panics only as described in C7 (counter
    overflow at the [usize::MAX + 1]-th element, or a clock difference out
    of [Duration]'s range). *)
Theorem C5_elements_unchanged {S A : Type} (nx : S -> option A * S) (sh : S -> N * option N)
  (s0 : S) (t0 : Timespec) (clock : list Timespec) outs st :
  run nx sh (new s0 t0) clock = Ok (outs, st) ->
  map (option_map snd) outs = fst (src_run nx s0 (List.length clock)) /\
  iter st = snd (src_run nx s0 (List.length clock)).
Proof. intro H. apply run_elements in H. exact H. Qed.

Lemma C5_witness :
  exists outs st,
  run slice_next slice_size_hint (new [7; 8; 9] t_epoch)
      [at_sec 1; at_sec 2; at_sec 3; at_sec 4; at_sec 5] = Ok (outs, st) /\
  (map (option_map snd) outs = fst (src_run slice_next [7; 8; 9] 5) /\
   iter st = snd (src_run slice_next [7; 8; 9] 5)).
Proof.
  eexists. eexists. split.
  - reflexivity.
  - apply (C5_elements_unchanged slice_next slice_size_hint [7; 8; 9] t_epoch
             [at_sec 1; at_sec 2; at_sec 3; at_sec 4; at_sec 5]).
    reflexivity.
Defined.

(** C6. For a record produced by the adapter ([num_done() >= 1]) and any
    [n > 0], [should_print_every_items(n)] returns normally with
    [(num_done() - 1) % n == 0]; in particular it is [true] when
    [num_done() == 1]. *)
Theorem C6_should_print_every (r : ProgressRecord) (n : N) :
  (1 <= num_done r)%N -> (0 < n)%N ->
  should_print_every_items r n = Ok ((num_done r - 1) mod n =? 0)%N /\
  (num_done r = 1%N -> should_print_every_items r n = Ok true).
Proof.
  intros H1 Hn.
  assert (Hs : should_print_every_items r n = Ok ((num_done r - 1) mod n =? 0)%N).
  { unfold should_print_every_items, usize_sub, usize_rem.
    destruct (N.leb_spec 1 (num_done r)) as [_|Hlt]; [|lia]. simpl.
    destruct (N.eqb_spec n 0) as [Hz|_]; [lia|]. reflexivity. }
  split; [exact Hs|].
  intro He. rewrite Hs, He. destruct n; reflexivity.
Qed.

Lemma C6_witness :
  (1 <= num_done {| num := 4; iterating_for := {| secs := 2; nanos := 0 |};
                    size_hint := (1%N, Some 1%N) |})%N /\ (0 < 3)%N /\
  (should_print_every_items {| num := 4; iterating_for := {| secs := 2; nanos := 0 |};
                               size_hint := (1%N, Some 1%N) |} 3 =
     Ok ((num_done {| num := 4; iterating_for := {| secs := 2; nanos := 0 |};
                      size_hint := (1%N, Some 1%N) |} - 1) mod 3 =? 0)%N /\
   (num_done {| num := 4; iterating_for := {| secs := 2; nanos := 0 |};
                size_hint := (1%N, Some 1%N) |} = 1%N ->
    should_print_every_items {| num := 4; iterating_for := {| secs := 2; nanos := 0 |};
                                size_hint := (1%N, Some 1%N) |} 3 = Ok true)).
Proof.
  split; [vm_compute; discriminate|]. split; [reflexivity|].
  apply C6_should_print_every; [vm_compute; discriminate|reflexivity].
Defined.

(** C7 (as stated). Refuted: [should_print_every_items(0)] is not the only
    failure the crate adds. [repeat(0)] never fails, yet pulling its
    [usize::MAX + 1]-th element through the adapter panics in
    [self.count += 1]. *)
Lemma C7_counterexample :
  is_panic (run (repeat_next 0%N) repeat_size_hint (new tt t_epoch)
                (repeat t_epoch (N.to_nat usize_max + 1))) = true /\
  fst (src_run (repeat_next 0%N) tt 1) = [Some 0%N].
Proof. split; [apply repeat_overflow_panics|reflexivity]. Qed.

(** C7 (amended). On every record the adapter produces ([num_done() >= 1]),
    [should_print_every_items(n)] panics exactly when [n == 0]. The adapter's
    [next()] panics exactly when the source yields an element and either the
    count is already [usize::MAX] ([self.count += 1] overflows) or
    [now_utc() - started_iterating] panics; for valid clock readings the
    latter happens exactly when the readings are more than
    [i64::MAX / 1000] seconds apart ([Duration::seconds] range check). *)
Theorem C7_failure_modes :
  (forall (r : ProgressRecord) (n : N), (1 <= num_done r)%N ->
     (is_panic (should_print_every_items r n) = true <-> n = 0%N)) /\
  (forall (S A : Type) (nx : S -> option A * S) (sh : S -> N * option N)
          (st : ProgressRecorderIter) (now : Timespec),
     is_panic (next nx sh st now) = true <->
     (exists a s', nx (iter st) = (Some a, s')) /\
     ((usize_max <= count st)%N \/ is_panic (Timespec_sub now (started_iterating st)) = true)) /\
  (forall t1 t0 : Timespec, valid_timespec t1 -> valid_timespec t0 ->
     (is_panic (Timespec_sub t1 t0) = true <-> (duration_max_secs < Z.abs (sec t1 - sec t0))%Z)).
Proof.
  split; [|split].
  - intros r n H1. unfold should_print_every_items, usize_sub, usize_rem.
    destruct (N.leb_spec 1 (num_done r)) as [_|Hlt]; [|lia]. simpl.
    destruct (N.eqb_spec n 0) as [Hz|Hnz]; simpl.
    + split; auto.
    + split; [discriminate|intro; contradiction].
  - intros S A nx sh st now. apply next_panic_iff.
  - apply Timespec_sub_panic_iff.
Qed.

(** C9 (as stated). Refuted: [started_iterating] and each [now_utc()] are
    wall-clock readings, so when the system clock is set back between two
    pulls the later record has the smaller [duration_since_start()]. *)
Lemma C9_counterexample :
  exists r1 r2 st,
  run slice_next slice_size_hint (new [0%nat; 1%nat] t_epoch) [at_sec 10; at_sec 5] =
    Ok ([Some (r1, 0%nat); Some (r2, 1%nat)], st) /\
  Duration_le (duration_since_start r1) (duration_since_start r2) = false.
Proof. do 3 eexists. split; reflexivity. Qed.

(** C9 (amended). If the wall-clock readings taken at successive pulls are
    non-decreasing, the durations of successive records are
    non-decreasing (in [Duration]'s order). *)
Theorem C9_elapsed_monotone_clock {S A : Type} (nx : S -> option A * S)
  (sh : S -> N * option N) (s0 : S) (t0 : Timespec) (clock : list Timespec) outs st :
  run nx sh (new s0 t0) clock = Ok (outs, st) ->
  (forall i j ti tj, (i <= j)%nat -> nth_error clock i = Some ti -> nth_error clock j = Some tj ->
     (ts_ns ti <= ts_ns tj)%Z) ->
  forall i j r1 a1 r2 a2, (i < j)%nat ->
  nth_error outs i = Some (Some (r1, a1)) -> nth_error outs j = Some (Some (r2, a2)) ->
  Duration_le (duration_since_start r1) (duration_since_start r2) = true.
Proof.
  intros H Hmono i j r1 a1 r2 a2 Hij H1 H2.
  destruct (run_durations nx sh clock _ _ _ H i r1 a1 H1) as (ti & Hti & Hd1).
  destruct (run_durations nx sh clock _ _ _ H j r2 a2 H2) as (tj & Htj & Hd2).
  apply Timespec_sub_ns in Hd1 as (Hn1 & Hb1). apply Timespec_sub_ns in Hd2 as (Hn2 & Hb2).
  unfold duration_since_start. apply Duration_le_ns; [exact Hb1|exact Hb2|].
  rewrite Hn1, Hn2. specialize (Hmono i j ti tj ltac:(lia) Hti Htj). lia.
Qed.

Lemma C9_witness :
  exists outs st,
  run slice_next slice_size_hint (new [0%nat; 1%nat; 2%nat] t_epoch)
      [at_sec 1; at_sec 3; at_sec 3] = Ok (outs, st) /\
  (forall i j ti tj, (i <= j)%nat -> nth_error [at_sec 1; at_sec 3; at_sec 3] i = Some ti ->
     nth_error [at_sec 1; at_sec 3; at_sec 3] j = Some tj -> (ts_ns ti <= ts_ns tj)%Z) /\
  (forall i j r1 a1 r2 a2, (i < j)%nat ->
   nth_error outs i = Some (Some (r1, a1)) -> nth_error outs j = Some (Some (r2, a2)) ->
   Duration_le (duration_since_start r1) (duration_since_start r2) = true).
Proof.
  assert (Hm : forall i j ti tj, (i <= j)%nat ->
            nth_error [at_sec 1; at_sec 3; at_sec 3] i = Some ti ->
            nth_error [at_sec 1; at_sec 3; at_sec 3] j = Some tj -> (ts_ns ti <= ts_ns tj)%Z).
  { intros [|[|[|i]]] [|[|[|j]]] ti tj Hij Hi Hj; simpl in Hi, Hj;
      try (destruct i; discriminate Hi); try (destruct j; discriminate Hj); try lia;
      inversion Hi; inversion Hj; subst; unfold ts_ns, at_sec; simpl; lia. }
  eexists. eexists. split; [reflexivity|]. split; [exact Hm|].
  eapply (C9_elapsed_monotone_clock slice_next slice_size_hint [0%nat; 1%nat; 2%nat] t_epoch
           [at_sec 1; at_sec 3; at_sec 3]); [reflexivity|exact Hm].
Defined.

(** C2 (failing input). [(0..usize::MAX).chain(0..1).progress()]: after the
    first pull the source reports the exact size hint
    [(usize::MAX, Some(usize::MAX))], and [fraction()] (hence [percent()])
    panics in [remaining + done] instead of returning
    [Some(done / (remaining + done))]. *)
Theorem C2_fraction_overflow :
  exists r st,
  run chain_next chain_size_hint (new (0%N, usize_max, 0%N, 1%N) t_epoch) [t_epoch] =
    Ok ([Some (r, 0%N)], st) /\
  num_done r = 1%N /\ size_hint r = (usize_max, Some usize_max) /\
  is_size_known r = true /\
  is_panic (fraction r) = true /\ is_panic (percent r) = true.
Proof. do 2 eexists. split; [reflexivity|]. repeat split; reflexivity. Qed.

(** C8. For a record produced by the adapter ([num_done() >= 1]): when the
    elapsed time is 0 whole seconds, [rate()] is [+inf] (an ordinary [f32]
    value, not a panic); when it is positive, [rate()] is the [f32]
    quotient of [num_done() as f32] by [num_seconds() as f32]. *)
Theorem C8_rate (r : ProgressRecord) :
  (1 <= num_done r)%N ->
  (num_seconds (duration_since_start r) = 0%Z -> rate r = f32_infinity) /\
  ((0 < num_seconds (duration_since_start r))%Z ->
   rate r = f32_div (f32_of_Z (Z.of_N (num_done r)))
                    (f32_of_Z (num_seconds (duration_since_start r)))).
Proof.
  intro H1. split.
  - intro H0. unfold rate. rewrite H0.
    destruct (num_done r) as [|p] eqn:Ep; [lia|].
    apply f32_div_by_zero. apply f32_of_Z_pos.
  - intros _. reflexivity.
Qed.

Lemma C8_witness :
  (1 <= num_done {| num := 1; iterating_for := {| secs := 0; nanos := 500000000 |};
                    size_hint := (4%N, Some 4%N) |})%N /\
  ((num_seconds (duration_since_start {| num := 1; iterating_for := {| secs := 0; nanos := 500000000 |};
                                         size_hint := (4%N, Some 4%N) |}) = 0%Z ->
    rate {| num := 1; iterating_for := {| secs := 0; nanos := 500000000 |};
            size_hint := (4%N, Some 4%N) |} = f32_infinity) /\
   ((0 < num_seconds (duration_since_start {| num := 1; iterating_for := {| secs := 0; nanos := 500000000 |};
                                              size_hint := (4%N, Some 4%N) |}))%Z ->
    rate {| num := 1; iterating_for := {| secs := 0; nanos := 500000000 |};
            size_hint := (4%N, Some 4%N) |} =
    f32_div (f32_of_Z (Z.of_N (num_done {| num := 1; iterating_for := {| secs := 0; nanos := 500000000 |};
                                          size_hint := (4%N, Some 4%N) |})))
            (f32_of_Z (num_seconds (duration_since_start
                         {| num := 1; iterating_for := {| secs := 0; nanos := 500000000 |};
                            size_hint := (4%N, Some 4%N) |}))))).
Proof.
  split; [vm_compute; discriminate|].
  apply C8_rate. vm_compute. discriminate.
Defined.

(** C10: every record the adapter yields has seen at least one element,
    and its size estimates are [usize] values; whenever [fraction] returns
    a value for it, that value is a positive finite [f32] of at most [1]
    ([f32_pos_le v 1]: [v = m * 2^e] with [m > 0] and [m * 2^e <= 1]), and
    whenever [percent] returns a value, it is a positive finite [f32] of at
    most [100]. The casts to [f32] are monotone and the quotient and the
    product are rounded to nearest, so rounding never crosses [1] or
    [100]. *)
Theorem C10_fraction_in_unit {S A : Type} (nx : S -> option A * S) (sh : S -> N * option N)
  (s0 : S) (t0 : Timespec) (clock : list Timespec) outs st :
  run nx sh (new s0 t0) clock = Ok (outs, st) ->
  forall r, In r (records outs) ->
  (forall v, fraction r = Ok (Some v) -> f32_pos_le v 1) /\
  (forall p, percent r = Ok (Some p) -> f32_pos_le p 100).
Proof.
  intros H r Hr. apply run_counts in H as (_ & _ & Hn). simpl in Hn.
  apply In_nth_error in Hr as [n Hr]. apply Hn in Hr.
  assert (H1 : (1 <= num_done r)%N) by (unfold num_done; lia).
  split.
  - intros v Hv. exact (proj1 (fraction_value r v H1 Hv)).
  - intros p Hp. exact (percent_value r p H1 Hp).
Qed.

Lemma C10_witness :
  exists outs st,
  run slice_next slice_size_hint (new [7; 8; 9] t_epoch)
      [at_sec 1; at_sec 2; at_sec 3] = Ok (outs, st) /\
  (forall r, In r (records outs) ->
   (forall v, fraction r = Ok (Some v) -> f32_pos_le v 1) /\
   (forall p, percent r = Ok (Some p) -> f32_pos_le p 100)).
Proof.
  eexists. eexists. split.
  - reflexivity.
  - eapply (C10_fraction_in_unit (@slice_next nat) slice_size_hint [7; 8; 9] t_epoch
              [at_sec 1; at_sec 2; at_sec 3]).
    reflexivity.
Defined.

(** * Further properties of the crate *)

(** X1. A caller that runs [print_every(n, msg)] on each record of a run
    of [iter.progress()] prints [msg] on the 1st, (n+1)-th, (2n+1)-th, ...
    record: after [k] records, [ceil(k / n)] times. *)
Theorem X1_print_every_run {S A : Type} (nx : S -> option A * S) (sh : S -> N * option N)
  (s0 : S) (t0 : Timespec) (clock : list Timespec) outs st (n : N) (msg : string) :
  run nx sh (progress s0 t0) clock = Ok (outs, st) -> (0 < n)%N ->
  print_every_loop (records outs) n msg =
    Ok (repeat msg ((List.length (records outs) + N.to_nat n - 1) / N.to_nat n)).
Proof.
  intros H Hn. apply run_counts in H as (_ & _ & Hnum). simpl in Hnum.
  rewrite (print_loop_gen n msg Hn (records outs) 0).
  - rewrite map_const_repeat, count_multiples by lia. reflexivity.
  - intros i r Hi. rewrite (Hnum i r Hi). lia.
Qed.

Lemma X1_witness :
  exists outs st,
  run slice_next slice_size_hint (progress [1; 2; 3; 4; 5] t_epoch)
      [at_sec 1; at_sec 2; at_sec 3; at_sec 4; at_sec 5] = Ok (outs, st) /\
  (0 < 2)%N /\
  print_every_loop (records outs) 2 "tick"%string =
    Ok (repeat "tick"%string ((List.length (records outs) + N.to_nat 2 - 1) / N.to_nat 2)).
Proof.
  eexists. eexists. split; [reflexivity|]. split; [reflexivity|].
  eapply (X1_print_every_run (@slice_next nat) slice_size_hint [1; 2; 3; 4; 5] t_epoch
           [at_sec 1; at_sec 2; at_sec 3; at_sec 4; at_sec 5]); reflexivity.
Defined.

(** X2. On a run of [iter.progress()] started at [t0], [print_message] on
    the k-th record (from 0) writes the line "Have seen {k+1} items and been
    iterating for {s}" followed by a newline, where [s] is the time from
    [t0] to the clock reading of the pull that produced the record, in whole
    seconds truncated towards zero. *)
Theorem X2_print_message_run {S A : Type} (nx : S -> option A * S) (sh : S -> N * option N)
  (s0 : S) (t0 : Timespec) (clock : list Timespec) outs st :
  run nx sh (progress s0 t0) clock = Ok (outs, st) ->
  forall k r, nth_error (records outs) k = Some r ->
  exists i a now, nth_error outs i = Some (Some (r, a)) /\ nth_error clock i = Some now /\
  print_message r =
    [("Have seen " ++ fmt_usize (N.of_nat (Datatypes.S k)) ++ " items and been iterating for "
      ++ fmt_i64 (Z.quot (ts_ns now - ts_ns t0) NANOS_PER_SEC) ++ newline)%string].
Proof.
  intros H k r Hk.
  destruct (records_nth outs k r Hk) as (i & a & Hi).
  destruct (run_durations nx sh clock _ _ _ H i r a Hi) as (now & Hnow & Hd).
  apply run_counts in H as (_ & _ & Hnum). simpl in Hnum, Hd.
  specialize (Hnum k r Hk).
  apply Timespec_sub_ns in Hd as (Hns & Hb).
  exists i, a, now. split; [exact Hi|]. split; [exact Hnow|].
  unfold print_message, message, num_done.
  rewrite num_seconds_quot by exact Hb. rewrite Hns.
  replace (num r) with (N.of_nat (Datatypes.S k)) by lia.
  rewrite !string_app_assoc. reflexivity.
Qed.

Lemma X2_witness :
  exists outs st,
  run slice_next slice_size_hint (progress [7; 8] t_epoch) [at_sec 1; at_sec 3] = Ok (outs, st) /\
  (forall k r, nth_error (records outs) k = Some r ->
   exists i a now, nth_error outs i = Some (Some (r, a)) /\
   nth_error [at_sec 1; at_sec 3] i = Some now /\
   print_message r =
     [("Have seen " ++ fmt_usize (N.of_nat (Datatypes.S k)) ++ " items and been iterating for "
       ++ fmt_i64 (Z.quot (ts_ns now - ts_ns t_epoch) NANOS_PER_SEC) ++ newline)%string]).
Proof.
  eexists. eexists. split; [reflexivity|].
  eapply (X2_print_message_run (@slice_next nat) slice_size_hint [7; 8] t_epoch
           [at_sec 1; at_sec 3]); reflexivity.
Defined.

(** X3. On a run of [iter.progress()], the record of the i-th pull carries
    the source's size hint taken after that pull's element was taken (the
    hint of the source advanced by i + 1 pulls), and the adapter's own
    [size_hint()] after the run is the hint of the source advanced by as
    many pulls as the run made. *)
Theorem X3_size_hints {S A : Type} (nx : S -> option A * S) (sh : S -> N * option N)
  (s0 : S) (t0 : Timespec) (clock : list Timespec) outs st :
  run nx sh (progress s0 t0) clock = Ok (outs, st) ->
  (forall i r a, nth_error outs i = Some (Some (r, a)) ->
     size_hint r = sh (snd (src_run nx s0 (Datatypes.S i)))) /\
  recorder_size_hint sh st = sh (snd (src_run nx s0 (List.length clock))).
Proof.
  intro H. split.
  - exact (run_size_hints nx sh clock _ _ _ H).
  - apply run_elements in H as [_ Hi]. unfold recorder_size_hint. rewrite Hi. reflexivity.
Qed.

Lemma X3_witness :
  exists outs st,
  run slice_next slice_size_hint (progress [7; 8; 9] t_epoch) [at_sec 1; at_sec 2] = Ok (outs, st) /\
  ((forall i r a, nth_error outs i = Some (Some (r, a)) ->
     size_hint r = slice_size_hint (snd (src_run slice_next [7; 8; 9] (Datatypes.S i)))) /\
   recorder_size_hint slice_size_hint st =
     slice_size_hint (snd (src_run slice_next [7; 8; 9] (List.length [at_sec 1; at_sec 2])))).
Proof.
  eexists. eexists. split; [reflexivity|].
  eapply (X3_size_hints (@slice_next nat) slice_size_hint [7; 8; 9] t_epoch
           [at_sec 1; at_sec 2]); reflexivity.
Defined.

(** X4. For [v.iter().progress()] over a slice of length [L] (at most
    [usize::MAX]), every pull [i < L] (from 0) of a run yields the element
    [v[i]], with a record of [num_done() == i + 1] and size hint
    [(L - (i + 1), Some(L - (i + 1)))]; its [fraction()] is
    [Some((i + 1) as f32 / L as f32)] and its [percent()] that value times
    [100.0]. *)
Theorem X4_slice_records {A : Type} (l : list A) (t0 : Timespec) (clock : list Timespec) outs st :
  (N.of_nat (List.length l) <= usize_max)%N ->
  run slice_next slice_size_hint (progress l t0) clock = Ok (outs, st) ->
  forall i a, nth_error l i = Some a -> (i < List.length clock)%nat ->
  exists r, nth_error outs i = Some (Some (r, a)) /\
  num_done r = N.of_nat (Datatypes.S i) /\
  size_hint r = (N.of_nat (List.length l - Datatypes.S i),
                 Some (N.of_nat (List.length l - Datatypes.S i))) /\
  fraction r = Ok (Some (f32_div (f32_of_Z (Z.of_nat (Datatypes.S i)))
                                 (f32_of_Z (Z.of_nat (List.length l))))) /\
  percent r = Ok (Some (f32_mul (f32_div (f32_of_Z (Z.of_nat (Datatypes.S i)))
                                         (f32_of_Z (Z.of_nat (List.length l)))) f32_100)).
Proof.
  intros HL H i a Hla Hic.
  assert (Hout : exists r, nth_error outs i = Some (Some (r, a))).
  { destruct (run_elements slice_next slice_size_hint clock _ _ _ H) as [He _].
    pose proof (f_equal (fun m => nth_error m i) He) as Hi. cbv beta in Hi.
    rewrite nth_error_map in Hi. unfold progress, new in Hi. cbn [iter] in Hi.
    rewrite src_run_slice_fst in Hi by exact Hic. rewrite Hla in Hi.
    destruct (nth_error outs i) as [[[r a']|]|]; cbn [option_map] in Hi; try discriminate.
    injection Hi as ->. exists r. reflexivity. }
  destruct Hout as [r Hi]. exists r. split; [exact Hi|].
  destruct (slice_run_spec clock _ _ _ H i r a Hi) as (_ & Hn & Hs).
  unfold progress, new in Hn, Hs. cbn [iter count] in Hn, Hs.
  replace (0 + N.of_nat (Datatypes.S i))%N with (N.of_nat (Datatypes.S i)) in Hn by lia.
  assert (Hlt : (i < List.length l)%nat) by (apply nth_error_Some; congruence).
  unfold slice_size_hint in Hs. rewrite length_skipn in Hs.
  assert (Hf : fraction r = Ok (Some (f32_div (f32_of_Z (Z.of_nat (Datatypes.S i)))
                                              (f32_of_Z (Z.of_nat (List.length l)))))).
  { unfold fraction, is_size_known, num_done. rewrite Hs, Hn. cbn [fst snd].
    rewrite N.eqb_refl. unfold usize_add.
    replace (N.of_nat (List.length l - Datatypes.S i) + N.of_nat (Datatypes.S i))%N
      with (N.of_nat (List.length l)) by lia.
    destruct (N.leb_spec (N.of_nat (List.length l)) usize_max) as [_|Hgt]; [|lia].
    cbn [rbind]. rewrite !nat_N_Z. reflexivity. }
  split; [exact Hn|]. split; [exact Hs|]. split; [exact Hf|].
  unfold percent. rewrite Hf. reflexivity.
Qed.

Lemma X4_witness :
  (N.of_nat (List.length [7; 8; 9]) <= usize_max)%N /\
  exists outs st,
  run slice_next slice_size_hint (progress [7; 8; 9] t_epoch) [at_sec 1; at_sec 2] = Ok (outs, st) /\
  (forall i a, nth_error [7; 8; 9] i = Some a -> (i < List.length [at_sec 1; at_sec 2])%nat ->
   exists r, nth_error outs i = Some (Some (r, a)) /\
   num_done r = N.of_nat (Datatypes.S i) /\
   size_hint r = (N.of_nat (List.length [7; 8; 9] - Datatypes.S i),
                  Some (N.of_nat (List.length [7; 8; 9] - Datatypes.S i))) /\
   fraction r = Ok (Some (f32_div (f32_of_Z (Z.of_nat (Datatypes.S i)))
                                  (f32_of_Z (Z.of_nat (List.length [7; 8; 9]))))) /\
   percent r = Ok (Some (f32_mul (f32_div (f32_of_Z (Z.of_nat (Datatypes.S i)))
                                          (f32_of_Z (Z.of_nat (List.length [7; 8; 9])))) f32_100))).
Proof.
  split; [vm_compute; discriminate|].
  eexists. eexists. split; [reflexivity|].
  eapply (X4_slice_records [7; 8; 9] t_epoch [at_sec 1; at_sec 2]);
    [vm_compute; discriminate|reflexivity].
Defined.

(** X5. On a run of [iter.progress()], a record taken when the source
    reports exactly zero elements left ([size_hint() == (0, Some(0))], e.g.
    the last element of a slice) has [fraction() == Some(1.0)] and
    [percent() == Some(100.0)] exactly: the division [n / n] and the
    product [1.0 * 100.0] are exact in [f32]. *)
Theorem X5_complete {S A : Type} (nx : S -> option A * S) (sh : S -> N * option N)
  (s0 : S) (t0 : Timespec) (clock : list Timespec) outs st :
  run nx sh (progress s0 t0) clock = Ok (outs, st) ->
  forall r, In r (records outs) -> size_hint r = (0%N, Some 0%N) ->
  fraction r = Ok (Some f32_one) /\ percent r = Ok (Some f32_100).
Proof.
  intros H r Hr Hs.
  pose proof (run_nums nx sh clock s0 t0 outs st H r Hr) as H1.
  pose proof (run_nums_bound nx sh clock _ _ _ H r Hr) as H2.
  assert (Hf : fraction r = Ok (Some f32_one)).
  { unfold fraction, is_size_known, num_done. rewrite Hs. cbn [fst snd N.eqb].
    unfold usize_add. rewrite N.add_0_l.
    destruct (N.leb_spec (num r) usize_max) as [_|Hgt]; [|lia].
    cbn [rbind]. destruct (num r) as [|p] eqn:Ep; [lia|].
    cbn [Z.of_N]. rewrite f32_div_self; [reflexivity|].
    assert (Hu : usize_max = 18446744073709551615%N) by reflexivity.
    rewrite Hu in H2. change (2 ^ 64)%Z with 18446744073709551616%Z. lia. }
  split; [exact Hf|]. unfold percent. rewrite Hf. cbn [rbind].
  rewrite f32_one_eq. reflexivity.
Qed.

Lemma X5_witness :
  exists outs st,
  run slice_next slice_size_hint (progress [7; 8; 9] t_epoch)
      [at_sec 1; at_sec 2; at_sec 3] = Ok (outs, st) /\
  (forall r, In r (records outs) -> size_hint r = (0%N, Some 0%N) ->
   fraction r = Ok (Some f32_one) /\ percent r = Ok (Some f32_100)).
Proof.
  eexists. eexists. split; [reflexivity|].
  eapply (X5_complete (@slice_next nat) slice_size_hint [7; 8; 9] t_epoch
           [at_sec 1; at_sec 2; at_sec 3]); reflexivity.
Defined.

(** X6. [count()] on [v.iter().progress()] after [k] pulls (a slice of
    length [L <= usize::MAX]) returns [L - k]: it counts the elements the
    adapter has not yielded yet, by draining the wrapped iterator. *)
Theorem X6_slice_count {A : Type} (l : list A) (t0 : Timespec) (clock : list Timespec)
  outs st (fuel : nat) :
  (N.of_nat (List.length l) <= usize_max)%N ->
  (List.length l - List.length clock < fuel)%nat ->
  run slice_next slice_size_hint (progress l t0) clock = Ok (outs, st) ->
  recorder_count slice_next fuel st = Some (Ok (N.of_nat (List.length l - List.length clock))).
Proof.
  intros HL Hf H. apply run_elements in H as [_ Hi]. simpl in Hi.
  rewrite src_run_slice in Hi.
  unfold recorder_count. rewrite Hi.
  rewrite iter_count_slice; rewrite length_skipn; [f_equal; f_equal; lia|lia|lia].
Qed.

Lemma X6_witness :
  (N.of_nat (List.length [7; 8; 9]) <= usize_max)%N /\
  (List.length [7; 8; 9] - List.length [at_sec 1] < 3)%nat /\
  exists outs st,
  run slice_next slice_size_hint (progress [7; 8; 9] t_epoch) [at_sec 1] = Ok (outs, st) /\
  recorder_count slice_next 3 st =
    Some (Ok (N.of_nat (List.length [7; 8; 9] - List.length [at_sec 1]))).
Proof.
  split; [vm_compute; discriminate|]. split; [simpl; lia|].
  eexists. eexists. split; [reflexivity|].
  eapply (X6_slice_count [7; 8; 9] t_epoch [at_sec 1]);
    [vm_compute; discriminate|simpl; lia|reflexivity].
Defined.

(** X7. On a run of [iter.progress()] where the start time and every clock
    reading are valid [Timespec]s and no reading is before the start,
    [rate()] of every record is a positive finite [f32] or [+inf]: never
    zero, negative or NaN. *)
Theorem X7_rate_positive {S A : Type} (nx : S -> option A * S) (sh : S -> N * option N)
  (s0 : S) (t0 : Timespec) (clock : list Timespec) outs st :
  valid_timespec t0 ->
  (forall t, In t clock -> valid_timespec t /\ (ts_ns t0 <= ts_ns t)%Z) ->
  run nx sh (progress s0 t0) clock = Ok (outs, st) ->
  forall r, In r (records outs) ->
  rate r = f32_infinity \/ exists m e, rate r = S754_finite false m e.
Proof.
  intros H0 Hc H r Hr.
  pose proof (run_nums nx sh clock s0 t0 outs st H r Hr) as H1.
  pose proof (run_nums_bound nx sh clock _ _ _ H r Hr) as H2.
  apply In_nth_error in Hr as [k Hk].
  destruct (records_nth outs k r Hk) as (i & a & Hi).
  destruct (run_durations nx sh clock _ _ _ H i r a Hi) as (now & Hnow & Hd).
  simpl in Hd. destruct (Hc now (nth_error_In _ _ Hnow)) as [Hv Hle].
  apply rate_pos; [unfold num_done; lia|].
  exact (num_seconds_range now t0 _ Hv H0 Hle Hd).
Qed.

Lemma X7_witness :
  valid_timespec t_epoch /\
  (forall t, In t [at_sec 0; at_sec 2] -> valid_timespec t /\ (ts_ns t_epoch <= ts_ns t)%Z) /\
  exists outs st,
  run slice_next slice_size_hint (progress [7; 8] t_epoch) [at_sec 0; at_sec 2] = Ok (outs, st) /\
  (forall r, In r (records outs) ->
   rate r = f32_infinity \/ exists m e, rate r = S754_finite false m e).
Proof.
  assert (Hv : valid_timespec t_epoch)
    by (unfold valid_timespec, t_epoch, at_sec, i64_min, i64_max, NANOS_PER_SEC; simpl; lia).
  assert (Hc : forall t, In t [at_sec 0; at_sec 2] ->
                 valid_timespec t /\ (ts_ns t_epoch <= ts_ns t)%Z).
  { intros t [<-|[<-|[]]];
      unfold valid_timespec, ts_ns, t_epoch, at_sec, i64_min, i64_max, NANOS_PER_SEC; simpl; lia. }
  split; [exact Hv|]. split; [exact Hc|].
  eexists. eexists. split; [reflexivity|].
  eapply (X7_rate_positive (@slice_next nat) slice_size_hint [7; 8] t_epoch
           [at_sec 0; at_sec 2]); [exact Hv|exact Hc|reflexivity].
Defined.

(** X8. A caller that runs [print_every(0, msg)] on each record of a run
    of [iter.progress()] panics (remainder by zero) on the first record,
    before printing anything; it prints nothing and returns normally only
    when the run yielded no record. *)
Theorem X8_print_every_zero {S A : Type} (nx : S -> option A * S) (sh : S -> N * option N)
  (s0 : S) (t0 : Timespec) (clock : list Timespec) outs st (msg : string) :
  run nx sh (progress s0 t0) clock = Ok (outs, st) ->
  match records outs with
  | [] => print_every_loop (records outs) 0 msg = Ok []
  | _ :: _ => is_panic (print_every_loop (records outs) 0 msg) = true
  end.
Proof.
  intro H. pose proof (run_nums nx sh clock s0 t0 outs st H) as H1.
  destruct (records outs) as [|r rs]; [reflexivity|].
  specialize (H1 r (or_introl eq_refl)).
  cbn [print_every_loop]. unfold print_every, should_print_every_items, usize_sub, usize_rem, num_done.
  destruct (N.leb_spec 1 (num r)) as [_|Hlt]; [|lia].
  reflexivity.
Qed.

Lemma X8_witness :
  exists outs st,
  run slice_next slice_size_hint (progress [7; 8] t_epoch) [at_sec 1; at_sec 2] = Ok (outs, st) /\
  match records outs with
  | [] => print_every_loop (records outs) 0 "tick"%string = Ok []
  | _ :: _ => is_panic (print_every_loop (records outs) 0 "tick"%string) = true
  end.
Proof.
  eexists. eexists. split; [reflexivity|].
  eapply (X8_print_every_zero (@slice_next nat) slice_size_hint [7; 8] t_epoch
            [at_sec 1; at_sec 2]); reflexivity.
Defined.
